(** * Pixelator: the block pixelation filter of [pixelator.jsx]

    A shallow embedding of [pixelateImage] (the [ImagePixelator] React
    component) together with the part of the HTML canvas API it calls, and
    the properties of the filter stated in the specification.

    Conventions of the embedding:
    - JavaScript numbers that hold image coordinates and the block size are
      integers far below 2^53, so they are modelled as [Z];
    - a pixel is a record of four channel values, a bitmap is the row-major
      list of its pixels, and [ImageData.data] is the flat list of channel
      values ([4] entries per pixel) that the source indexes;
    - the 2D context and its canvas are one record: the bitmap (as
      [getImageData] reads it), its dimensions and the current [fillStyle];
      the canvas stores premultiplied 8-bit colour, so a translucent pixel
      drawn on it reads back rounded ([canvas_read]);
    - loops run on fuel: [OutOfFuel] stands for a loop that is still running
      when the fuel is gone;
    - the [setTimeout] wrapper only defers the work, so the callback is
      modelled as running at once. *)

From Stdlib Require Import ZArith Lia Bool.
From stdpp Require Import base list strings.

Local Open Scope Z_scope.

(** ** Outcomes of running a piece of the program *)

Inductive outcome (A : Type) : Type :=
| Returned (a : A)
| Thrown (name : string)
| OutOfFuel.

Arguments Returned {A} a.
Arguments Thrown {A} name.
Arguments OutOfFuel {A}.

Definition bind {A B : Type} (m : outcome A) (k : A -> outcome B) : outcome B :=
  match m with
  | Returned a => k a
  | Thrown e => Thrown e
  | OutOfFuel => OutOfFuel
  end.

Notation "'let*' x ':=' m 'in' k" := (bind m (fun x => k))
  (at level 10, x name, m at level 100, k at level 200).

(** ** Data model *)

Record Pixel : Type := mkPixel { red : Z; green : Z; blue : Z; alpha : Z }.

Record PixelBuffer : Type :=
  mkBuffer { width : Z; height : Z; pixels : list Pixel }.

(** The four entries a pixel occupies in [ImageData.data]. *)
Definition channels (p : Pixel) : list Z := [red p; green p; blue p; alpha p].

Definition byte_range (v : Z) : bool := (0 <=? v) && (v <=? 255).

Definition pixel_ok (p : Pixel) : bool :=
  byte_range (red p) && byte_range (green p) &&
  byte_range (blue p) && byte_range (alpha p).

(** A valid buffer: positive dimensions, [width * height] pixels, every
    channel an unsigned 8-bit value. *)
Definition valid (b : PixelBuffer) : bool :=
  (0 <? width b) && (0 <? height b) &&
  (Z.of_nat (length (pixels b)) =? width b * height b) &&
  forallb pixel_ok (pixels b).

(** Row-major access: the pixel at [(x, y)] sits at index [y * width + x]. *)
Definition getPixel (b : PixelBuffer) (x y : Z) : option Pixel :=
  if (0 <=? x) && (x <? width b) && (0 <=? y) && (y <? height b)
  then pixels b !! Z.to_nat (y * width b + x)
  else None.

(** ** The canvas and its 2D context *)

Record Canvas : Type :=
  mkCanvas { cwidth : Z; cheight : Z; bitmap : list Pixel;
             fillStyle : Z * Z * Z }.

Definition transparent_black : Pixel := mkPixel 0 0 0 0.

(** Column and row of the [i]-th pixel of a bitmap [w] pixels wide. *)
Definition col (w : Z) (i : nat) : Z := Z.of_nat i mod w.
Definition row (w : Z) (i : nat) : Z := Z.of_nat i / w.

Definition blank (w h : Z) : list Pixel :=
  replicate (Z.to_nat (w * h)) transparent_black.

(** [canvas.width = w]: the bitmap is cleared to transparent black and the
    context state goes back to its defaults ([fillStyle] black). *)
Definition set_width (w : Z) (c : Canvas) : Canvas :=
  {| cwidth := w; cheight := cheight c;
     bitmap := blank w (cheight c); fillStyle := (0, 0, 0) |}.

(** [canvas.height = h]. *)
Definition set_height (h : Z) (c : Canvas) : Canvas :=
  {| cwidth := cwidth c; cheight := h;
     bitmap := blank (cwidth c) h; fillStyle := (0, 0, 0) |}.

(** The canvas keeps its colours premultiplied by alpha, 8 bits a channel:
    a colour channel [c] of a pixel with alpha [a] is stored as
    [premultiply c a] and read back as [unpremultiply] of that. *)
Definition premultiply (c a : Z) : Z := (c * a + 127) / 255.

Definition unpremultiply (c a : Z) : Z := (c * 255 + a / 2) / a.

(** What the canvas gives back for a pixel drawn on a cleared bitmap: the
    pixel itself when it is opaque, transparent black when its alpha is 0,
    and a rounded colour in between. *)
Definition canvas_read (p : Pixel) : Pixel :=
  let a := alpha p in
  if a =? 0 then transparent_black
  else mkPixel (unpremultiply (premultiply (red p) a) a)
               (unpremultiply (premultiply (green p) a) a)
               (unpremultiply (premultiply (blue p) a) a)
               a.

(** [ctx.drawImage(img, 0, 0)] on a canvas that has just been cleared: every
    canvas pixel covered by the image takes the image's pixel, as the
    canvas keeps it. *)
Definition drawImage (img : PixelBuffer) (c : Canvas) : Canvas :=
  {| cwidth := cwidth c; cheight := cheight c;
     bitmap :=
       imap (fun i p =>
               let x := col (cwidth c) i in
               let y := row (cwidth c) i in
               if (x <? width img) && (y <? height img)
               then default p (canvas_read <$>
                                 pixels img !! Z.to_nat (y * width img + x))
               else p)
            (bitmap c);
     fillStyle := fillStyle c |}.

(** [ctx.getImageData(0, 0, canvas.width, canvas.height).data]: a copy of the
    bitmap as a flat array; a zero width or height raises [IndexSizeError]. *)
Definition getImageData (c : Canvas) : outcome (list Z) :=
  if (cwidth c =? 0) || (cheight c =? 0)
  then Thrown "IndexSizeError"
  else Returned (flat_map channels (bitmap c)).

(** [data[i]]: [undefined] (here [None]) outside the array. *)
Definition data_get (data : list Z) (i : Z) : option Z :=
  if i <? 0 then None else data !! Z.to_nat i.

(** [ctx.fillStyle = `rgb(${red}, ${green}, ${blue})`]: a string built from
    an [undefined] channel is not a colour and the assignment is ignored. *)
Definition set_fillStyle_rgb (r g b : option Z) (c : Canvas) : Canvas :=
  match r, g, b with
  | Some r, Some g, Some b =>
      {| cwidth := cwidth c; cheight := cheight c;
         bitmap := bitmap c; fillStyle := (r, g, b) |}
  | _, _, _ => c
  end.

(** An [rgb(...)] colour paints fully opaque pixels. *)
Definition paint (style : Z * Z * Z) : Pixel :=
  let '(r, g, b) := style in mkPixel r g b 255.

(** [ctx.fillRect(x, y, w, h)]: nothing when [w] or [h] is zero; otherwise
    the rectangle (normalised when a side is negative) is painted with
    [fillStyle] on the pixels of the bitmap that it covers. *)
Definition fillRect (x y w h : Z) (c : Canvas) : Canvas :=
  if (w =? 0) || (h =? 0) then c
  else
    let x0 := Z.min x (x + w) in
    let x1 := Z.max x (x + w) in
    let y0 := Z.min y (y + h) in
    let y1 := Z.max y (y + h) in
    {| cwidth := cwidth c; cheight := cheight c;
       bitmap :=
         imap (fun i p =>
                 let px := col (cwidth c) i in
                 let py := row (cwidth c) i in
                 if (x0 <=? px) && (px <? x1) && (y0 <=? py) && (py <? y1)
                 then paint (fillStyle c)
                 else p)
              (bitmap c);
       fillStyle := fillStyle c |}.

(** [canvas.toDataURL('image/png')]: PNG is lossless, the export is the
    bitmap itself. *)
Definition toDataURL (c : Canvas) : PixelBuffer :=
  {| width := cwidth c; height := cheight c; pixels := bitmap c |}.

(** ** The pixelation loops *)

(** The state threaded through the loops: the context, and (ghost) the
    indices of [data] that were read, in program order. *)
Record Run : Type := mkRun { ctx : Canvas; reads : list Z }.

(** [for (let i = start; i < limit; i += step) body]. *)
Fixpoint for_loop {S : Type} (fuel : nat) (limit step : Z)
    (body : Z -> S -> outcome S) (i : Z) (s : S) : outcome S :=
  if i <? limit then
    match fuel with
    | O => OutOfFuel
    | Datatypes.S fuel' =>
        let* s' := body i s in for_loop fuel' limit step body (i + step) s'
    end
  else Returned s.

(** The body of the inner loop, for the block whose corner is [(x, y)]. *)
Definition block (data : list Z) (pixelSize : Z) (y x : Z) (r : Run) : Run :=
  let pixelIndex := (y * cwidth (ctx r) + x) * 4 in
  let red := data_get data pixelIndex in
  let green := data_get data (pixelIndex + 1) in
  let blue := data_get data (pixelIndex + 2) in
  let c := set_fillStyle_rgb red green blue (ctx r) in
  let c := fillRect x y pixelSize pixelSize c in
  {| ctx := c; reads := reads r ++ [pixelIndex; pixelIndex + 1; pixelIndex + 2] |}.

Definition pixelate_row (fuel : nat) (data : list Z) (pixelSize : Z)
    (y : Z) (r : Run) : outcome Run :=
  for_loop fuel (cwidth (ctx r)) pixelSize
           (fun x r => Returned (block data pixelSize y x r)) 0 r.

Definition pixelate_loops (fuel : nat) (data : list Z) (pixelSize : Z)
    (r : Run) : outcome Run :=
  for_loop fuel (cheight (ctx r)) pixelSize
           (pixelate_row fuel data pixelSize) 0 r.

(** The callback of [pixelateImage], from sizing the canvas to the end of
    the loops, on the component's canvas [c]. *)
Definition pixelate_on (fuel : nat) (originalImage : PixelBuffer)
    (pixelSize : Z) (c : Canvas) : outcome Run :=
  let c := set_width (width originalImage) c in
  let c := set_height (height originalImage) c in
  let c := drawImage originalImage c in
  let* data := getImageData c in
  pixelate_loops fuel data pixelSize {| ctx := c; reads := [] |}.

(** ** The component *)

(** The React state of [ImagePixelator] that the filter touches, and the
    canvas behind [canvasRef]. [isProcessing] is raised before the callback
    runs and lowered at its end. *)

Record Component : Type :=
  mkComponent { originalImage : option PixelBuffer;
                pixelatedImage : option PixelBuffer;
                pixelSize : Z;
                isProcessing : bool;
                canvas : Canvas }.

Definition pixelateImage (fuel : nat) (st : Component) : outcome Component :=
  match originalImage st with
  | None => Returned st
  | Some img =>
      let* r := pixelate_on fuel img (pixelSize st) (canvas st) in
      Returned {| originalImage := originalImage st;
                  pixelatedImage := Some (toDataURL (ctx r));
                  pixelSize := pixelSize st;
                  isProcessing := false;
                  canvas := ctx r |}
  end.

(** [setPixelSize(parseInt(e.target.value, 10))]. *)
Definition handlePixelSizeChange (value : Z) (st : Component) : Component :=
  {| originalImage := originalImage st;
     pixelatedImage := pixelatedImage st;
     pixelSize := value;
     isProcessing := isProcessing st;
     canvas := canvas st |}.

(** A canvas element as the page creates it: 300 by 150, transparent. *)
Definition fresh_canvas : Canvas :=
  {| cwidth := 300; cheight := 150; bitmap := blank 300 150;
     fillStyle := (0, 0, 0) |}.

(** The component right after [source] was loaded and the slider set. *)
Definition loaded (source : PixelBuffer) (blockSize : Z) : Component :=
  {| originalImage := Some source; pixelatedImage := None;
     pixelSize := blockSize; isProcessing := false; canvas := fresh_canvas |}.

(** The engine's contract [pixelate(source, blockSize)]: the work of the
    callback on the canvas of a freshly loaded page, and its export. *)
Definition pixelate (fuel : nat) (source : PixelBuffer) (blockSize : Z)
  : outcome PixelBuffer :=
  let* r := pixelate_on fuel source blockSize fresh_canvas in
  Returned (toDataURL (ctx r)).

(** ** Definitions used to state the properties *)

(** The corner of the block that holds coordinate [v]. *)
Definition corner (blockSize v : Z) : Z := blockSize * (v / blockSize).

Definition opaque (p : Pixel) : Pixel :=
  mkPixel (red p) (green p) (blue p) 255.

(** The colour painted for the block whose corner is [(x, y)]. *)
Definition sample (src : PixelBuffer) (x y : Z) : Pixel :=
  opaque (default transparent_black
                  (pixels src !! Z.to_nat (y * width src + x))).

(** The bitmap in which the pixels selected by [done] are painted with the
    sample of their block and the others still show the source. *)
Definition painted_until (src : PixelBuffer) (bs : Z)
    (done : Z -> Z -> bool) : list Pixel :=
  imap (fun i p =>
          let px := col (width src) i in
          let py := row (width src) i in
          if done px py
          then sample src (corner bs px) (corner bs py)
          else p)
       (pixels src).

(** Indices inside the [data] array. *)
Definition in_data (data : list Z) (i : Z) : Prop :=
  0 <= i < Z.of_nat (length data).

(** Pixels already painted when the inner loop stands at column [x] of the
    block row that starts at [y]. *)
Definition row_done (bs y x : Z) (px py : Z) : bool :=
  (py <? y) || ((py <? y + bs) && (px <? x)).

Definition row_inv (src : PixelBuffer) (bs y x : Z) (r : Run) : Prop :=
  cwidth (ctx r) = width src /\ cheight (ctx r) = height src /\
  0 <= x /\ x mod bs = 0 /\
  bitmap (ctx r) = painted_until src bs (row_done bs y x) /\
  Forall (in_data (flat_map channels (pixels src))) (reads r).

Definition loops_inv (src : PixelBuffer) (bs y : Z) (r : Run) : Prop :=
  cwidth (ctx r) = width src /\ cheight (ctx r) = height src /\
  0 <= y /\ y mod bs = 0 /\
  bitmap (ctx r) = painted_until src bs (fun _ py => py <? y) /\
  Forall (in_data (flat_map channels (pixels src))) (reads r).

(** The blocks of [src] painted with the opaque copy of their corner. *)
Definition pixelated (src : PixelBuffer) (bs : Z) : PixelBuffer :=
  mkBuffer (width src) (height src) (painted_until src bs (fun _ _ => true)).

(** The image as the canvas holds it after [drawImage]. *)
Definition stored (src : PixelBuffer) : PixelBuffer :=
  mkBuffer (width src) (height src) (canvas_read <$> pixels src).

(** Fuel that lets both loops run to their end when the step is positive. *)
Definition enough (fuel : nat) (src : PixelBuffer) : Prop :=
  width src <= Z.of_nat fuel /\ height src <= Z.of_nat fuel.

(** ** Sample buffers *)

Definition rgba (r g b a : Z) : Pixel := mkPixel r g b a.

Definition red_px : Pixel := rgba 255 0 0 255.
Definition blue_px : Pixel := rgba 0 0 255 255.

Definition four_by_four : PixelBuffer :=
  mkBuffer 4 4 (red_px :: replicate 15 blue_px).

Definition translucent : PixelBuffer := mkBuffer 1 1 [rgba 10 20 30 128].

Definition one_pixel : PixelBuffer := mkBuffer 1 1 [red_px].

Definition grey (v : Z) : Pixel := rgba v v v 255.

Definition three_by_three : PixelBuffer :=
  mkBuffer 3 3 [grey 10; grey 20; grey 30;
                grey 40; grey 50; grey 60;
                grey 70; grey 80; grey 90].


Definition veiled : PixelBuffer :=
  mkBuffer 3 3 [grey 10; grey 20; rgba 216 129 154 100;
                grey 40; grey 50; grey 60;
                grey 70; grey 80; grey 90].

Definition stale_canvas : Canvas :=
  {| cwidth := 2; cheight := 1; bitmap := [red_px; blue_px];
     fillStyle := (1, 2, 3) |}.

(** ** Definitions used to state further properties of the loops *)

(** The first [n] values of a loop counter that starts at 0 and steps by
    [bs]. *)
Definition grid (bs : Z) (n : nat) : list Z :=
  (fun k => bs * Z.of_nat k) <$> seq 0 n.

(** How many passes a loop up to [limit] with step [bs] makes. *)
Definition passes (limit bs : Z) : nat := Z.to_nat ((limit + bs - 1) / bs).

(** The three indices of [data] read for the block with corner [(x, y)]. *)
Definition block_reads (w y x : Z) : list Z :=
  let pixelIndex := (y * w + x) * 4 in
  [pixelIndex; pixelIndex + 1; pixelIndex + 2].

Definition row_reads (w bs y : Z) (n : nat) : list Z :=
  flat_map (block_reads w y) (grid bs n).

Definition all_reads (w bs : Z) (nx ny : nat) : list Z :=
  flat_map (fun y => row_reads w bs y nx) (grid bs ny).

(** ** Files, the page and the event handlers *)

(** A [File] as the handlers see it: its MIME [type], and what the browser
    makes of it when [FileReader] and [Image] load it ([None] when the image
    never fires [onload]). *)
Record File : Type := mkFile { type : string; decoded : option PixelBuffer }.

Definition line_terminator (a : Ascii.ascii) : bool :=
  Ascii.eqb a (Ascii.ascii_of_nat 10) || Ascii.eqb a (Ascii.ascii_of_nat 13).

(** What [.*] takes: the longest run of characters up to a line end. *)
Fixpoint dot_star (s : string) : string :=
  match s with
  | EmptyString => EmptyString
  | String a s' =>
      if line_terminator a then EmptyString else String a (dot_star s')
  end.

(** [strip_prefix p s]: the rest of [s] after its prefix [p], if it has it. *)
Fixpoint strip_prefix (p s : string) : option string :=
  match p with
  | EmptyString => Some s
  | String a p' =>
      match s with
      | EmptyString => None
      | String b s' => if Ascii.eqb a b then strip_prefix p' s' else None
      end
  end.

(** [s.match('image.*')]: the pattern string becomes the unanchored regular
    expression [/image.*/]; the result is the text of the leftmost match, or
    [None] for [null]. *)
Fixpoint match_image (s : string) : option string :=
  match strip_prefix "image" s with
  | Some rest => Some ("image" +:+ dot_star rest)
  | None =>
      match s with
      | EmptyString => None
      | String _ s' => match_image s'
      end
  end.

(** The [<a>] element that [downloadImage] builds. *)
Record Link : Type := mkLink { href : PixelBuffer; download : string }.

(** The component together with what the handlers touch outside it: the drag
    flag, the children of [document.body] (each node with its identity), the
    identity the next created node gets, and the links clicked so far. *)
Record Page : Type :=
  mkPage { component : Component;
           isDragging : bool;
           nextNode : nat;
           body : list (nat * Link);
           clicked : list Link }.

Definition with_component (c : Component) (pg : Page) : Page :=
  {| component := c; isDragging := isDragging pg; nextNode := nextNode pg;
     body := body pg; clicked := clicked pg |}.

Definition setIsDragging (b : bool) (pg : Page) : Page :=
  {| component := component pg; isDragging := b; nextNode := nextNode pg;
     body := body pg; clicked := clicked pg |}.

(** [processImage(file)]: once the reader and the image have loaded,
    [setOriginalImage(img)] and [setPixelatedImage(null)]. *)
Definition processImage (file : File) (pg : Page) : Page :=
  match decoded file with
  | Some img =>
      with_component
        {| originalImage := Some img;
           pixelatedImage := None;
           pixelSize := pixelSize (component pg);
           isProcessing := isProcessing (component pg);
           canvas := canvas (component pg) |} pg
  | None => pg
  end.

(** [handleFileChange(e)], on [e.target.files]. *)
Definition handleFileChange (files : list File) (pg : Page) : Page :=
  match files with
  | file :: _ =>
      match match_image (type file) with
      | Some _ => processImage file pg
      | None => pg
      end
  | [] => pg
  end.

Definition handleDragOver (pg : Page) : Page := setIsDragging true pg.

Definition handleDragLeave (pg : Page) : Page := setIsDragging false pg.

(** [handleDrop(e)], on [e.dataTransfer.files]. *)
Definition handleDrop (files : list File) (pg : Page) : Page :=
  let pg := setIsDragging false pg in
  match files with
  | file :: _ =>
      match match_image (type file) with
      | Some _ => processImage file pg
      | None => pg
      end
  | [] => pg
  end.

(** The [disabled] attribute of the "Pixelate Image" button. *)
Definition pixelate_disabled (c : Component) : bool :=
  match originalImage c with
  | None => true
  | Some _ => isProcessing c
  end.

(** A click on the "Pixelate Image" button. *)
Definition clickPixelate (fuel : nat) (pg : Page) : outcome Page :=
  if pixelate_disabled (component pg) then Returned pg
  else
    let* c := pixelateImage fuel (component pg) in
    Returned (with_component c pg).

(** [downloadImage()]: a link to the export is created, appended to the
    body, clicked and removed again. *)
Definition downloadImage (pg : Page) : Page :=
  match pixelatedImage (component pg) with
  | None => pg
  | Some url =>
      let node := nextNode pg in
      let link := {| href := url; download := "pixelated-image.png" |} in
      let appended := body pg ++ [(node, link)] in
      {| component := component pg;
         isDragging := isDragging pg;
         nextNode := Datatypes.S node;
         body := List.filter (fun n => negb (Nat.eqb (fst n) node)) appended;
         clicked := clicked pg ++ [link] |}
  end.

(** Every node of the body was created before [nextNode]. *)
Definition body_ok (pg : Page) : Prop :=
  Forall (fun n => (fst n < nextNode pg)%nat) (body pg).

Definition png_file (img : PixelBuffer) : File :=
  {| type := "image/png"; decoded := Some img |}.

(** A page in use: an image and its export at block size 7 on a painted
    canvas, one other node in the body, one link clicked before. *)
Definition used_page : Page :=
  {| component := {| originalImage := Some one_pixel;
                     pixelatedImage := Some one_pixel;
                     pixelSize := 7; isProcessing := false;
                     canvas := stale_canvas |};
     isDragging := true; nextNode := 5;
     body := [(2%nat, mkLink four_by_four "other.png")];
     clicked := [mkLink four_by_four "other.png"] |}.

Definition start_page : Page :=
  {| component := {| originalImage := None; pixelatedImage := None;
                     pixelSize := 10; isProcessing := false;
                     canvas := fresh_canvas |};
     isDragging := false; nextNode := 0; body := []; clicked := [] |}.

(** Case analysis on every integer comparison in sight. *)
Ltac zbool :=
  repeat match goal with
    | H : context [Z.ltb ?a ?b] |- _ => destruct (Z.ltb_spec a b)
    | H : context [Z.leb ?a ?b] |- _ => destruct (Z.leb_spec a b)
    | H : context [Z.eqb ?a ?b] |- _ => destruct (Z.eqb_spec a b)
    | |- context [Z.ltb ?a ?b] => destruct (Z.ltb_spec a b)
    | |- context [Z.leb ?a ?b] => destruct (Z.leb_spec a b)
    | |- context [Z.eqb ?a ?b] => destruct (Z.eqb_spec a b)
    end;
  simpl in *; try discriminate; try lia; try reflexivity.

(** ** Reasoning about [for] loops *)

Section ForLoop.
Context {S : Type}.
Variables (limit step : Z) (body : Z -> S -> outcome S).

(** A loop whose counter never grows runs forever once it is entered. *)
Lemma for_loop_stuck (fuel : nat) :
  step <= 0 ->
  (forall i s e, body i s <> Thrown e) ->
  forall i s, i < limit -> for_loop fuel limit step body i s = OutOfFuel.
Proof.
  intros Hstep Hbody. induction fuel as [|fuel IH]; intros i s Hi; simpl.
  - destruct (Z.ltb_spec i limit); [reflexivity | lia].
  - destruct (Z.ltb_spec i limit); [|lia].
    destruct (body i s) as [s'| e |] eqn:Hb; simpl.
    + apply IH. lia.
    + exfalso. exact (Hbody i s e Hb).
    + reflexivity.
Qed.

Variable Inv : Z -> S -> Prop.
Hypothesis step_pos : 1 <= step.
Hypothesis body_ok :
  forall i s, i < limit -> Inv i s ->
              exists s', body i s = Returned s' /\ Inv (i + step) s'.

(** Invariant rule: with a positive step, [limit - i] units of fuel are
    enough, and the invariant holds at the exit value of the counter. *)
Lemma for_loop_inv (fuel : nat) :
  forall i s,
    limit - i <= Z.of_nat fuel -> Inv i s ->
    exists i' s',
      for_loop fuel limit step body i s = Returned s' /\
      limit <= i' /\ Inv i' s'.
Proof.
  induction fuel as [|fuel IH]; intros i s Hfuel HI; simpl.
  - destruct (Z.ltb_spec i limit); [lia|]. exists i, s. auto.
  - destruct (Z.ltb_spec i limit) as [Hlt|Hge].
    + destruct (body_ok i s Hlt HI) as (s' & -> & HI'). simpl.
      apply IH; [lia | assumption].
    + exists i, s. auto.
Qed.
End ForLoop.

(** ** The flat channel array *)

Lemma flat_map_channels_length (l : list Pixel) :
  length (flat_map channels l) = (4 * length l)%nat.
Proof. induction l as [|p l IH]; simpl; [reflexivity | rewrite IH; lia]. Qed.

Lemma flat_map_channels_lookup (l : list Pixel) :
  forall (i : nat) (p : Pixel),
    l !! i = Some p ->
    flat_map channels l !! (4 * i)%nat = Some (red p) /\
    flat_map channels l !! (4 * i + 1)%nat = Some (green p) /\
    flat_map channels l !! (4 * i + 2)%nat = Some (blue p).
Proof.
  induction l as [|q l IH]; intros i p Hi; [discriminate|].
  destruct i as [|i]; simpl in Hi.
  - injection Hi as ->. simpl. auto.
  - replace (4 * Datatypes.S i)%nat with (4 + 4 * i)%nat by lia.
    simpl. apply IH. exact Hi.
Qed.

(** ** Bitmap indices and coordinates *)

Lemma col_row_bounds (w h : Z) (i : nat) :
  0 < w -> Z.of_nat i < w * h ->
  0 <= col w i < w /\ 0 <= row w i < h /\ row w i * w + col w i = Z.of_nat i.
Proof.
  intros Hw Hi. unfold col, row.
  pose proof (Z.mod_pos_bound (Z.of_nat i) w Hw).
  pose proof (Z.div_mod (Z.of_nat i) w ltac:(lia)).
  assert (0 <= Z.of_nat i / w) by (apply Z.div_pos; lia).
  assert (Z.of_nat i / w < h) by (apply Z.div_lt_upper_bound; lia).
  lia.
Qed.

Lemma col_row_of_index (w x y : Z) :
  0 <= x < w -> 0 <= y ->
  col w (Z.to_nat (y * w + x)) = x /\ row w (Z.to_nat (y * w + x)) = y.
Proof.
  intros Hx Hy. unfold col, row.
  rewrite Z2Nat.id by nia.
  split; symmetry.
  - apply (Z.mod_unique _ _ y); lia.
  - apply (Z.div_unique _ _ _ x); lia.
Qed.

Lemma corner_in_block (bs x v : Z) :
  0 < bs -> x mod bs = 0 -> x <= v < x + bs -> corner bs v = x.
Proof.
  intros Hbs Hx Hv. unfold corner.
  pose proof (Z.div_mod x bs ltac:(lia)) as Hdm. rewrite Hx in Hdm.
  assert (v / bs = x / bs) as ->; [|lia].
  symmetry. apply (Z.div_unique _ _ _ (v - x)); lia.
Qed.

Lemma corner_bounds (bs v : Z) :
  0 < bs -> 0 <= v -> 0 <= corner bs v <= v /\ corner bs v mod bs = 0.
Proof.
  intros Hbs Hv. unfold corner.
  pose proof (Z.mul_div_le v bs Hbs).
  assert (0 <= v / bs) by (apply Z.div_pos; lia).
  split; [nia|].
  rewrite Z.mul_comm. apply Z.mod_mul. lia.
Qed.

Lemma valid_dims (b : PixelBuffer) :
  valid b = true ->
  0 < width b /\ 0 < height b /\
  Z.of_nat (length (pixels b)) = width b * height b.
Proof.
  unfold valid. rewrite !andb_true_iff, !Z.ltb_lt, Z.eqb_eq. tauto.
Qed.

Lemma valid_lookup (b : PixelBuffer) (x y : Z) :
  valid b = true -> 0 <= x < width b -> 0 <= y < height b ->
  exists p, pixels b !! Z.to_nat (y * width b + x) = Some p.
Proof.
  intros Hv Hx Hy. destruct (valid_dims b Hv) as (Hw & Hh & Hlen).
  apply lookup_lt_is_Some. nia.
Qed.

Lemma getPixel_valid (b : PixelBuffer) (x y : Z) :
  valid b = true -> 0 <= x < width b -> 0 <= y < height b ->
  exists p, getPixel b x y = Some p /\
            pixels b !! Z.to_nat (y * width b + x) = Some p.
Proof.
  intros Hv Hx Hy. destruct (valid_lookup b x y Hv Hx Hy) as (p & Hp).
  exists p. split; [|exact Hp]. unfold getPixel. rewrite <- Hp. zbool.
Qed.

(** Reading the three colour channels of the pixel at [(x, y)]. *)
Lemma data_get_pixel (l : list Pixel) (w x y : Z) (p : Pixel) :
  0 <= y * w + x ->
  l !! Z.to_nat (y * w + x) = Some p ->
  let pixelIndex := (y * w + x) * 4 in
  data_get (flat_map channels l) pixelIndex = Some (red p) /\
  data_get (flat_map channels l) (pixelIndex + 1) = Some (green p) /\
  data_get (flat_map channels l) (pixelIndex + 2) = Some (blue p).
Proof.
  intros Hnn Hp pixelIndex. subst pixelIndex.
  destruct (flat_map_channels_lookup l _ p Hp) as (Hr & Hg & Hb).
  unfold data_get.
  replace (Z.to_nat ((y * w + x) * 4)) with (4 * Z.to_nat (y * w + x))%nat by lia.
  replace (Z.to_nat ((y * w + x) * 4 + 1))
    with (4 * Z.to_nat (y * w + x) + 1)%nat by lia.
  replace (Z.to_nat ((y * w + x) * 4 + 2))
    with (4 * Z.to_nat (y * w + x) + 2)%nat by lia.
  repeat split; zbool; assumption.
Qed.

(** *** What the canvas keeps of a pixel *)

Lemma round_trip_opaque (c : Z) : unpremultiply (premultiply c 255) 255 = c.
Proof.
  unfold unpremultiply, premultiply.
  assert ((c * 255 + 127) / 255 = c) as Hq
      by (symmetry; apply (Z.div_unique _ _ _ 127); lia).
  rewrite Hq. exact Hq.
Qed.

Lemma canvas_read_opaque (p : Pixel) : alpha p = 255 -> canvas_read p = p.
Proof.
  destruct p as [r g b a]; simpl. intros ->.
  unfold canvas_read; simpl. rewrite !round_trip_opaque. reflexivity.
Qed.

Lemma canvas_read_alpha (p : Pixel) : alpha (canvas_read p) = alpha p.
Proof.
  unfold canvas_read. destruct (Z.eqb_spec (alpha p) 0) as [H0|H0]; simpl;
    congruence.
Qed.

Lemma round_trip_range (c a : Z) :
  0 <= c <= 255 -> 0 < a <= 255 ->
  0 <= unpremultiply (premultiply c a) a <= 255.
Proof.
  intros Hc Ha. unfold unpremultiply, premultiply.
  assert (0 <= (c * a + 127) / 255 <= a) as Hp.
  { split; [apply Z.div_pos; nia|].
    apply Z.lt_succ_r, Z.div_lt_upper_bound; nia. }
  assert (0 <= a / 2 < a) as Hh.
  { split; [apply Z.div_pos; lia | apply Z.div_lt_upper_bound; lia]. }
  split; [apply Z.div_pos; nia|].
  apply Z.lt_succ_r, Z.div_lt_upper_bound; nia.
Qed.

Lemma pixel_ok_canvas_read (p : Pixel) :
  pixel_ok p = true -> pixel_ok (canvas_read p) = true.
Proof.
  intros Hok. unfold pixel_ok, byte_range in Hok.
  rewrite !andb_true_iff, !Z.leb_le in Hok.
  destruct Hok as (((Hr & Hg) & Hb) & Ha). unfold canvas_read.
  destruct (Z.eqb_spec (alpha p) 0) as [H0|H0]; [reflexivity|].
  pose proof (round_trip_range (red p) (alpha p) ltac:(lia) ltac:(lia)).
  pose proof (round_trip_range (green p) (alpha p) ltac:(lia) ltac:(lia)).
  pose proof (round_trip_range (blue p) (alpha p) ltac:(lia) ltac:(lia)).
  unfold pixel_ok, byte_range; simpl.
  rewrite !andb_true_iff, !Z.leb_le. lia.
Qed.

Lemma stored_valid (src : PixelBuffer) :
  valid src = true -> valid (stored src) = true.
Proof.
  unfold valid. rewrite !andb_true_iff. intros (((Hw & Hh) & Hlen) & Hok).
  simpl. rewrite length_fmap. repeat split; try assumption.
  rewrite forallb_forall in Hok |- *. intros q Hq.
  apply list_elem_of_In, list_elem_of_fmap in Hq. destruct Hq as (p & -> & Hp).
  apply pixel_ok_canvas_read, Hok, list_elem_of_In, Hp.
Qed.

(** An opaque image is stored as it is. *)
Lemma stored_opaque (src : PixelBuffer) :
  Forall (fun p => alpha p = 255) (pixels src) -> stored src = src.
Proof.
  intros Hop. destruct src as [w h l]; unfold stored; simpl in *. f_equal.
  induction Hop as [|p l Hp _ IH]; [reflexivity|].
  rewrite fmap_cons, IH, (canvas_read_opaque p Hp). reflexivity.
Qed.

Lemma getPixel_stored (src : PixelBuffer) (x y : Z) :
  getPixel (stored src) x y = canvas_read <$> getPixel src x y.
Proof.
  unfold getPixel; simpl.
  destruct ((0 <=? x) && (x <? width src) && (0 <=? y) && (y <? height src));
    [apply list_lookup_fmap | reflexivity].
Qed.

(** Sizing the canvas and drawing the image leaves exactly the stored image
    on the canvas, whatever the canvas held before. *)
Lemma canvas_setup (img : PixelBuffer) (c : Canvas) :
  valid img = true ->
  drawImage img (set_height (height img) (set_width (width img) c)) =
  mkCanvas (width img) (height img) (pixels (stored img)) (0, 0, 0).
Proof.
  intros Hv. destruct (valid_dims img Hv) as (Hw & Hh & Hlen).
  unfold drawImage, set_height, set_width, blank, stored; simpl. f_equal.
  apply list_eq; intros i. rewrite list_lookup_imap, list_lookup_fmap.
  destruct (decide (i < length (pixels img))%nat) as [Hi|Hi].
  - rewrite lookup_replicate_2 by lia. simpl.
    destruct (col_row_bounds (width img) (height img) i Hw ltac:(lia))
      as (Hc & Hr & Hidx).
    rewrite Hidx, Nat2Z.id.
    destruct (lookup_lt_is_Some_2 (pixels img) i Hi) as (p & Hp).
    rewrite Hp. simpl. zbool.
  - rewrite (proj1 (lookup_replicate_None _ _ _)) by lia.
    rewrite (lookup_ge_None_2 (pixels img) i) by lia. reflexivity.
Qed.

Lemma painted_until_ext (src : PixelBuffer) (bs : Z) (d1 d2 : Z -> Z -> bool) :
  valid src = true ->
  (forall px py, 0 <= px < width src -> 0 <= py < height src ->
                 d1 px py = d2 px py) ->
  painted_until src bs d1 = painted_until src bs d2.
Proof.
  intros Hv Hd. destruct (valid_dims src Hv) as (Hw & Hh & Hlen).
  unfold painted_until. apply imap_ext. intros i p Hp. simpl.
  apply lookup_lt_Some in Hp.
  destruct (col_row_bounds (width src) (height src) i Hw ltac:(lia))
    as (Hc & Hr & _).
  rewrite (Hd _ _ Hc Hr). reflexivity.
Qed.

Section Engine.
Variables (src : PixelBuffer) (bs : Z).
Hypothesis Hvalid : valid src = true.
Hypothesis Hbs : 1 <= bs.

Local Abbreviation w := (width src).
Local Abbreviation h := (height src).
Local Abbreviation data := (flat_map channels (pixels src)).

(** One block: the invariant of the inner loop moves one block right. *)
Lemma block_step (y x : Z) (r : Run) :
  0 <= y < h -> y mod bs = 0 -> x < w ->
  row_inv src bs y x r ->
  row_inv src bs y (x + bs) (block data bs y x r).
Proof.
  intros Hy Hymod Hx (Hcw & Hch & Hx0 & Hxmod & Hbm & Hreads).
  destruct (valid_dims src Hvalid) as (Hw & Hh & Hlen).
  destruct (valid_lookup src x y Hvalid ltac:(lia) Hy) as (p & Hp).
  destruct (data_get_pixel (pixels src) w x y p ltac:(nia) Hp)
    as (Hr & Hg & Hb).
  unfold block. rewrite Hcw, Hr, Hg, Hb.
  unfold set_fillStyle_rgb, fillRect.
  replace ((bs =? 0) || (bs =? 0)) with false by zbool.
  rewrite !Z.min_l, !Z.max_r by lia.
  unfold row_inv; simpl.
  repeat split; try assumption; try lia.
  - rewrite <- Zplus_mod_idemp_l, Hxmod. simpl.
    rewrite Z.mod_same by lia. reflexivity.
  - rewrite Hbm, Hcw. unfold painted_until.
    apply list_eq; intros i. rewrite !list_lookup_imap.
    destruct (pixels src !! i) as [q|] eqn:Hq; [simpl|reflexivity].
    f_equal. apply lookup_lt_Some in Hq.
    destruct (col_row_bounds w h i Hw ltac:(lia)) as (Hc & Hrw & _).
    set (px := col w i) in *. set (py := row w i) in *.
    destruct ((x <=? px) && (px <? x + bs) && (y <=? py) && (py <? y + bs))
      eqn:Hin.
    + rewrite !andb_true_iff, !Z.leb_le, !Z.ltb_lt in Hin.
      replace (row_done bs y (x + bs) px py) with true
        by (unfold row_done; zbool).
      rewrite (corner_in_block bs x px), (corner_in_block bs y py)
        by (assumption || lia).
      unfold sample. rewrite Hp. reflexivity.
    + unfold row_done. zbool.
  - apply Forall_app_2; [assumption|].
    unfold in_data. rewrite flat_map_channels_length.
    repeat constructor; nia.
Qed.

(** One block row: the inner loop returns and the outer invariant moves
    one block down. *)
Lemma row_step (fuel : nat) (y : Z) (r : Run) :
  w <= Z.of_nat fuel ->
  y < h -> loops_inv src bs y r ->
  exists r', pixelate_row fuel data bs y r = Returned r' /\
             loops_inv src bs (y + bs) r'.
Proof.
  intros Hfuel Hy (Hcw & Hch & Hy0 & Hymod & Hbm & Hreads).
  destruct (valid_dims src Hvalid) as (Hw & Hh & Hlen).
  unfold pixelate_row. rewrite Hcw.
  destruct (for_loop_inv w bs
              (fun x r => Returned (block data bs y x r))
              (row_inv src bs y) Hbs) with (fuel := fuel) (i := 0) (s := r)
    as (x' & r' & Hrun & Hx' & Hcw' & Hch' & Hx0 & Hxmod & Hbm' & Hreads').
  - intros x r0 Hx HI. eexists; split; [reflexivity|].
    apply block_step; try assumption; lia.
  - lia.
  - unfold row_inv.
    repeat split; try assumption; try lia.
    rewrite Hbm. apply painted_until_ext; [assumption|].
    intros px py Hpx Hpy. unfold row_done. zbool.
  - exists r'. split; [exact Hrun|].
    unfold loops_inv.
    repeat split; try assumption; try lia.
    + rewrite <- Zplus_mod_idemp_l, Hymod. simpl.
      rewrite Z.mod_same by lia. reflexivity.
    + rewrite Hbm'. apply painted_until_ext; [assumption|].
      intros px py Hpx Hpy. unfold row_done. zbool.
Qed.

(** Both loops, from a canvas that shows the source. *)
Lemma loops_run (fuel : nat) (style : Z * Z * Z) :
  w <= Z.of_nat fuel -> h <= Z.of_nat fuel ->
  exists r,
    pixelate_loops fuel data bs (mkRun (mkCanvas w h (pixels src) style) [])
    = Returned r /\
    cwidth (ctx r) = w /\ cheight (ctx r) = h /\
    bitmap (ctx r) = painted_until src bs (fun _ _ => true) /\
    Forall (in_data data) (reads r).
Proof.
  intros Hfw Hfh.
  destruct (valid_dims src Hvalid) as (Hw & Hh & Hlen).
  unfold pixelate_loops. simpl.
  destruct (for_loop_inv h bs (pixelate_row fuel data bs)
              (loops_inv src bs) Hbs) with
    (fuel := fuel) (i := 0)
    (s := mkRun (mkCanvas w h (pixels src) style) [])
    as (y' & r' & Hrun & Hy' & Hcw' & Hch' & Hy0 & Hymod & Hbm' & Hreads').
  - intros y r0 Hy HI. apply row_step; assumption.
  - lia.
  - unfold loops_inv; simpl.
    repeat split; try lia; [|constructor].
    unfold painted_until. apply list_eq; intros i.
    rewrite list_lookup_imap.
    destruct (pixels src !! i) as [q|] eqn:Hq; [simpl|reflexivity].
    apply lookup_lt_Some in Hq.
    destruct (col_row_bounds w h i Hw ltac:(lia)) as (Hc & Hrw & _).
    zbool.
  - exists r'. split; [exact Hrun|].
    repeat split; try assumption.
    rewrite Hbm'. apply painted_until_ext; [assumption|].
    intros px py Hpx Hpy. zbool.
Qed.
End Engine.

Lemma pixelate_on_run (fuel : nat) (src : PixelBuffer) (bs : Z) (c : Canvas) :
  valid src = true -> 1 <= bs -> enough fuel src ->
  exists r,
    pixelate_on fuel src bs c = Returned r /\
    toDataURL (ctx r) = pixelated (stored src) bs /\
    Forall (in_data (flat_map channels (pixels (stored src)))) (reads r).
Proof.
  intros Hv Hbs (Hfw & Hfh).
  destruct (valid_dims src Hv) as (Hw & Hh & Hlen).
  unfold pixelate_on. rewrite canvas_setup by assumption.
  unfold getImageData; simpl.
  replace ((width src =? 0) || (height src =? 0)) with false by zbool.
  simpl.
  destruct (loops_run (stored src) bs (stored_valid src Hv) Hbs fuel (0, 0, 0)
              Hfw Hfh)
    as (r & Hrun & Hcw & Hch & Hbm & Hreads).
  exists r. split; [exact Hrun|]. split; [|exact Hreads].
  unfold toDataURL, pixelated. rewrite Hcw, Hch, Hbm. reflexivity.
Qed.

Lemma pixelateImage_run (fuel : nat) (src : PixelBuffer) (st : Component) :
  originalImage st = Some src ->
  valid src = true -> 1 <= pixelSize st -> enough fuel src ->
  exists st',
    pixelateImage fuel st = Returned st' /\
    originalImage st' = Some src /\
    pixelatedImage st' = Some (pixelated (stored src) (pixelSize st)) /\
    pixelSize st' = pixelSize st.
Proof.
  intros Himg Hv Hbs Hfuel. unfold pixelateImage. rewrite Himg.
  destruct (pixelate_on_run fuel src (pixelSize st) (canvas st) Hv Hbs Hfuel)
    as (r & -> & Hout & _).
  simpl. eexists. split; [reflexivity|]. simpl. rewrite Hout. auto.
Qed.

Lemma pixelate_run (fuel : nat) (src : PixelBuffer) (bs : Z) :
  valid src = true -> 1 <= bs -> enough fuel src ->
  pixelate fuel src bs = Returned (pixelated (stored src) bs).
Proof.
  intros Hv Hbs Hfuel. unfold pixelate.
  destruct (pixelate_on_run fuel src bs fresh_canvas Hv Hbs Hfuel)
    as (r & -> & Hout & _).
  simpl. rewrite Hout. reflexivity.
Qed.

(** *** More fuel never changes a result *)

Lemma for_loop_mono {S : Type} (limit step : Z)
    (b1 b2 : Z -> S -> outcome S) :
  (forall i s s', b1 i s = Returned s' -> b2 i s = Returned s') ->
  forall (f1 f2 : nat) i s s',
    (f1 <= f2)%nat ->
    for_loop f1 limit step b1 i s = Returned s' ->
    for_loop f2 limit step b2 i s = Returned s'.
Proof.
  intros Hb. induction f1 as [|f1 IH]; intros f2 i s s' Hle Hrun.
  - simpl in Hrun. destruct (i <? limit) eqn:Hi; [discriminate|].
    destruct f2; simpl; rewrite Hi; exact Hrun.
  - destruct f2 as [|f2]; [lia|]. simpl in *.
    destruct (i <? limit); [|exact Hrun].
    destruct (b1 i s) as [s1| |] eqn:H1; simpl in Hrun; try discriminate.
    rewrite (Hb _ _ _ H1). simpl. apply (IH f2); [lia | exact Hrun].
Qed.

Lemma pixelate_loops_mono (f1 f2 : nat) (data : list Z) (bs : Z) (r r' : Run) :
  (f1 <= f2)%nat ->
  pixelate_loops f1 data bs r = Returned r' ->
  pixelate_loops f2 data bs r = Returned r'.
Proof.
  intros Hle. unfold pixelate_loops. apply for_loop_mono; [|exact Hle].
  intros y s s'. unfold pixelate_row. apply for_loop_mono; [auto | exact Hle].
Qed.

Lemma pixelate_mono (f1 f2 : nat) (src : PixelBuffer) (bs : Z)
    (out : PixelBuffer) :
  (f1 <= f2)%nat ->
  pixelate f1 src bs = Returned out -> pixelate f2 src bs = Returned out.
Proof.
  intros Hle. unfold pixelate, pixelate_on.
  destruct (getImageData _) as [data| |]; simpl; try discriminate.
  destruct (pixelate_loops f1 _ _ _) as [r| |] eqn:H1; simpl; try discriminate.
  rewrite (pixelate_loops_mono f1 f2 _ _ _ _ Hle H1). simpl. auto.
Qed.

(** Whatever the fuel, a returned buffer is the closed form. *)
Lemma pixelate_returns (fuel : nat) (src : PixelBuffer) (bs : Z)
    (out : PixelBuffer) :
  valid src = true -> 1 <= bs ->
  pixelate fuel src bs = Returned out -> out = pixelated (stored src) bs.
Proof.
  intros Hv Hbs Hrun.
  set (f2 := (fuel + Z.to_nat (width src) + Z.to_nat (height src))%nat).
  pose proof (pixelate_mono fuel f2 src bs out ltac:(lia) Hrun) as H2.
  rewrite pixelate_run in H2; try assumption.
  - congruence.
  - unfold enough. lia.
Qed.

(** *** Pixels of the closed form *)

Section Pixelated.
Variables (src : PixelBuffer) (bs : Z).
Hypothesis Hvalid : valid src = true.
Hypothesis Hbs : 1 <= bs.

Local Abbreviation w := (width src).
Local Abbreviation h := (height src).

Lemma corner_range (v lim : Z) :
  0 <= v < lim -> 0 <= corner bs v < lim.
Proof. intros Hv. destruct (corner_bounds bs v); lia. Qed.

Lemma pixelated_lookup (x y : Z) :
  0 <= x < w -> 0 <= y < h ->
  pixels (pixelated src bs) !! Z.to_nat (y * w + x) =
  Some (sample src (corner bs x) (corner bs y)).
Proof.
  intros Hx Hy. simpl. unfold painted_until.
  rewrite list_lookup_imap.
  destruct (valid_lookup src x y Hvalid Hx Hy) as (q & ->). simpl.
  destruct (col_row_of_index w x y Hx ltac:(lia)) as (-> & ->).
  reflexivity.
Qed.

Lemma sample_source (x y : Z) :
  0 <= x < w -> 0 <= y < h ->
  exists p, getPixel src x y = Some p /\ sample src x y = opaque p.
Proof.
  intros Hx Hy.
  destruct (getPixel_valid src x y Hvalid Hx Hy) as (p & Hg & Hp).
  exists p. split; [exact Hg|]. unfold sample. rewrite Hp. reflexivity.
Qed.

(** Every output pixel is the opaque copy of the source pixel at the
    corner of its block. *)
Lemma pixelated_getPixel (x y : Z) :
  0 <= x < w -> 0 <= y < h ->
  exists p0,
    getPixel src (corner bs x) (corner bs y) = Some p0 /\
    getPixel (pixelated src bs) x y = Some (opaque p0).
Proof.
  intros Hx Hy.
  destruct (sample_source (corner bs x) (corner bs y)
              (corner_range x w Hx) (corner_range y h Hy)) as (p0 & Hg & Hs).
  exists p0. split; [exact Hg|].
  unfold getPixel. rewrite <- Hs, <- pixelated_lookup by assumption.
  simpl. zbool.
Qed.

Lemma pixel_ok_opaque (p : Pixel) : pixel_ok p = true -> pixel_ok (opaque p) = true.
Proof.
  unfold pixel_ok, opaque, byte_range; simpl.
  rewrite !andb_true_iff. tauto.
Qed.

Lemma pixelated_valid : valid (pixelated src bs) = true.
Proof.
  pose proof Hvalid as Hv. unfold valid in Hv |- *.
  rewrite !andb_true_iff in Hv. destruct Hv as (((Hw & Hh) & Hlen) & Hok).
  simpl. unfold painted_until. rewrite length_imap, Hw, Hh, Hlen. simpl.
  rewrite forallb_forall in Hok |- *. intros q Hq.
  apply list_elem_of_In, list_elem_of_lookup in Hq. destruct Hq as (i & Hi).
  rewrite list_lookup_imap in Hi.
  destruct (pixels src !! i) as [p|]; [|discriminate].
  simpl in Hi. injection Hi as <-.
  apply pixel_ok_opaque.
  destruct (pixels src !! _) as [p0|] eqn:Hp0; simpl; [|reflexivity].
  apply Hok, list_elem_of_In, list_elem_of_lookup. eauto.
Qed.

Lemma corner_corner (v : Z) : 0 <= v -> corner bs (corner bs v) = corner bs v.
Proof.
  intros Hv. destruct (corner_bounds bs v ltac:(lia) Hv) as (_ & Hmod).
  apply corner_in_block; lia.
Qed.

(** Pixelating a pixelated image at the same block size changes nothing:
    the block grid always starts at [(0, 0)]. *)
Lemma pixelated_idempotent :
  pixelated (pixelated src bs) bs = pixelated src bs.
Proof.
  destruct (valid_dims src Hvalid) as (Hw & Hh & Hlen).
  unfold pixelated at 1 3. simpl. f_equal.
  unfold painted_until at 1. simpl.
  apply list_eq; intros i. unfold painted_until.
  rewrite !list_lookup_imap.
  destruct (pixels src !! i) as [q|] eqn:Hq; [simpl|reflexivity].
  f_equal. apply lookup_lt_Some in Hq.
  destruct (col_row_bounds w h i Hw ltac:(lia)) as (Hc & Hr & _).
  unfold sample at 1. simpl.
  rewrite pixelated_lookup by (apply corner_range; assumption).
  simpl. rewrite !corner_corner by lia. reflexivity.
Qed.
End Pixelated.

(** *** Block size 1 and opaque sources *)

Lemma corner_one (v : Z) : corner 1 v = v.
Proof. unfold corner. rewrite Z.div_1_r. lia. Qed.

Lemma opaque_id (p : Pixel) : alpha p = 255 -> opaque p = p.
Proof. destruct p as [r g b a]; simpl; intros ->; reflexivity. Qed.

Lemma pixelated_one_opaque (src : PixelBuffer) :
  valid src = true ->
  (forall p, p ∈ pixels src -> alpha p = 255) ->
  pixelated src 1 = src.
Proof.
  intros Hv Hop. destruct (valid_dims src Hv) as (Hw & Hh & Hlen).
  destruct src as [w h l]; simpl in *.
  unfold pixelated, painted_until; simpl. f_equal.
  apply list_eq; intros i. rewrite list_lookup_imap.
  destruct (l !! i) as [q|] eqn:Hq; [simpl|reflexivity].
  f_equal. rewrite !corner_one. unfold sample; simpl.
  destruct (col_row_bounds w h i Hw) as (_ & _ & ->).
  { apply lookup_lt_Some in Hq. lia. }
  rewrite Nat2Z.id, Hq. simpl.
  apply opaque_id, Hop, list_elem_of_lookup. eauto.
Qed.

(** *** Block sizes below 1 *)

Lemma pixelate_row_stuck (fuel : nat) (data : list Z) (bs y : Z) (r : Run) :
  bs <= 0 -> 0 < cwidth (ctx r) ->
  pixelate_row fuel data bs y r = OutOfFuel.
Proof.
  intros Hbs Hw. unfold pixelate_row.
  apply for_loop_stuck; [exact Hbs | discriminate | exact Hw].
Qed.

Lemma pixelate_loops_stuck (fuel : nat) (data : list Z) (bs : Z) (r : Run) :
  bs <= 0 -> 0 < cwidth (ctx r) -> 0 < cheight (ctx r) ->
  pixelate_loops fuel data bs r = OutOfFuel.
Proof.
  intros Hbs Hw Hh. unfold pixelate_loops.
  destruct fuel as [|fuel]; cbn [for_loop].
  - destruct (Z.ltb_spec 0 (cheight (ctx r))); [reflexivity | lia].
  - destruct (Z.ltb_spec 0 (cheight (ctx r))); [|lia].
    rewrite pixelate_row_stuck by assumption. reflexivity.
Qed.

Lemma pixelate_stuck (fuel : nat) (src : PixelBuffer) (bs : Z) :
  valid src = true -> bs < 1 -> pixelate fuel src bs = OutOfFuel.
Proof.
  intros Hv Hbs. destruct (valid_dims src Hv) as (Hw & Hh & Hlen).
  unfold pixelate, pixelate_on.
  rewrite canvas_setup by assumption.
  unfold getImageData; simpl.
  replace ((width src =? 0) || (height src =? 0)) with false by zbool.
  simpl. rewrite pixelate_loops_stuck; [reflexivity | lia | simpl; lia ..].
Qed.

Lemma in_data_defined (data : list Z) (i : Z) :
  in_data data i -> is_Some (data_get data i).
Proof.
  intros (H0 & Hlt). unfold data_get.
  destruct (Z.ltb_spec i 0); [lia|].
  apply lookup_lt_is_Some. lia.
Qed.

(** *** The export through the stored image *)

Lemma opaque_canvas_read (p : Pixel) :
  alpha p = 255 -> opaque (canvas_read p) = p.
Proof.
  intros Ha. rewrite (canvas_read_opaque p Ha). apply opaque_id, Ha.
Qed.

Lemma pixelated_opaque (s : PixelBuffer) (bs : Z) :
  Forall (fun p => alpha p = 255) (pixels (pixelated s bs)).
Proof.
  apply Forall_lookup. intros i p Hi. simpl in Hi.
  unfold painted_until in Hi. rewrite list_lookup_imap in Hi.
  destruct (pixels s !! i); [|discriminate].
  simpl in Hi. injection Hi as <-. reflexivity.
Qed.

(** An export is stored as it is when it is drawn on a canvas again. *)
Lemma stored_pixelated (s : PixelBuffer) (bs : Z) :
  stored (pixelated s bs) = pixelated s bs.
Proof. apply stored_opaque, pixelated_opaque. Qed.

(** Every pixel of the export is the opaque copy of what the canvas keeps
    of the source pixel at the corner of its block. *)
Lemma export_getPixel (src : PixelBuffer) (bs x y : Z) :
  valid src = true -> 1 <= bs ->
  0 <= x < width src -> 0 <= y < height src ->
  exists p0,
    getPixel src (corner bs x) (corner bs y) = Some p0 /\
    getPixel (pixelated (stored src) bs) x y = Some (opaque (canvas_read p0)).
Proof.
  intros Hv Hbs Hx Hy.
  destruct (pixelated_getPixel (stored src) bs (stored_valid src Hv) Hbs x y
              Hx Hy) as (q & Hq & Hout).
  rewrite getPixel_stored in Hq.
  destruct (getPixel src (corner bs x) (corner bs y)) as [p0|];
    [|discriminate].
  simpl in Hq. injection Hq as <-. eauto.
Qed.

(** The round trip on four sample pixels: an opaque and a half transparent
    pixel come back as they are, a faint one and a veiled one rounded, and a
    fully transparent one as transparent black. *)
Example canvas_read_samples :
  canvas_read (grey 60) = grey 60 /\
  canvas_read (rgba 10 20 30 128) = rgba 10 20 30 128 /\
  canvas_read (rgba 10 20 30 7) = rgba 0 36 36 7 /\
  canvas_read (rgba 216 129 154 100) = rgba 217 130 153 100 /\
  canvas_read (rgba 10 20 30 0) = rgba 0 0 0 0.
Proof. repeat split. Qed.

(** ** The 4 by 4 scenario of the specification *)

Example four_by_four_blocks :
  pixelate 4 four_by_four 2 =
  Returned (mkBuffer 4 4
    [red_px; red_px; blue_px; blue_px;
     red_px; red_px; blue_px; blue_px;
     blue_px; blue_px; blue_px; blue_px;
     blue_px; blue_px; blue_px; blue_px]).
Proof. vm_compute. reflexivity. Qed.

(** The reads of the 3 by 3 scenario: the three colour channels of the four
    block corners, in program order. *)
Example three_by_three_reads :
  pixelate_on 3 three_by_three 2 stale_canvas =
  Returned
    (mkRun (mkCanvas 3 3
              [grey 10; grey 10; grey 30;
               grey 10; grey 10; grey 30;
               grey 70; grey 70; grey 90] (90, 90, 90))
           [0; 1; 2; 8; 9; 10; 24; 25; 26; 32; 33; 34]).
Proof. vm_compute. reflexivity. Qed.

(** ** The properties of the specification *)

(** C1 (as amended). With block size 1 the output has the dimensions of
    the source and every output pixel is opaque (alpha 255); an output pixel
    whose source pixel is opaque is that source pixel, in all four
    channels, so the output is pixel-identical to a fully opaque source. *)
Theorem pixelate_block_size_one (src : PixelBuffer) (fuel : nat) :
  valid src = true -> enough fuel src ->
  exists out,
    pixelate fuel src 1 = Returned out /\
    width out = width src /\ height out = height src /\
    (forall x y, 0 <= x < width src -> 0 <= y < height src ->
       exists p q, getPixel src x y = Some p /\
                   getPixel out x y = Some q /\
                   alpha q = 255 /\
                   (alpha p = 255 -> q = p)) /\
    ((forall p, p ∈ pixels src -> alpha p = 255) -> out = src).
Proof.
  intros Hv Hfuel. exists (pixelated (stored src) 1).
  split; [apply pixelate_run; [assumption | lia | assumption]|].
  split; [reflexivity|]. split; [reflexivity|]. split.
  - intros x y Hx Hy.
    destruct (export_getPixel src 1 x y Hv ltac:(lia) Hx Hy) as (p & Hp & Ho).
    rewrite !corner_one in Hp.
    exists p, (opaque (canvas_read p)).
    split; [exact Hp|]. split; [exact Ho|]. split; [reflexivity|].
    apply opaque_canvas_read.
  - intros Hop. rewrite stored_opaque by (apply Forall_forall; exact Hop).
    apply pixelated_one_opaque; assumption.
Qed.

Lemma pixelate_block_size_one_witness :
  valid three_by_three = true /\
  exists out,
    pixelate 3 three_by_three 1 = Returned out /\
    width out = 3 /\ height out = 3 /\
    (forall x y, 0 <= x < 3 -> 0 <= y < 3 ->
       exists p q, getPixel three_by_three x y = Some p /\
                   getPixel out x y = Some q /\
                   alpha q = 255 /\
                   (alpha p = 255 -> q = p)) /\
    ((forall p, p ∈ pixels three_by_three -> alpha p = 255) ->
     out = three_by_three).
Proof.
  split; [reflexivity|].
  apply (pixelate_block_size_one three_by_three 3);
    [reflexivity | unfold enough; simpl; lia].
Defined.

(** C1 (as stated) fails on a source with a translucent pixel: the filter
    paints with an [rgb(...)] colour, so alpha 128 comes out as 255. *)
Lemma pixelate_block_size_one_not_identity :
  valid translucent = true /\
  pixelate 1 translucent 1 = Returned (mkBuffer 1 1 [rgba 10 20 30 255]) /\
  getPixel (mkBuffer 1 1 [rgba 10 20 30 255]) 0 0 <> getPixel translucent 0 0 /\
  forall fuel, pixelate fuel translucent 1 <> Returned translucent.
Proof.
  split; [reflexivity|]. split; [reflexivity|]. split; [discriminate|].
  intros fuel Hrun.
  apply pixelate_returns in Hrun; [discriminate | reflexivity | lia].
Qed.




(** C3. The output buffer has the width and the height of the source. *)
Theorem pixelate_preserves_dimensions
    (src : PixelBuffer) (blockSize : Z) (fuel : nat) :
  valid src = true -> 1 <= blockSize -> enough fuel src ->
  exists out,
    pixelate fuel src blockSize = Returned out /\
    width out = width src /\ height out = height src.
Proof.
  intros Hv Hbs Hfuel. exists (pixelated (stored src) blockSize).
  split; [apply pixelate_run; assumption|]. split; reflexivity.
Qed.

Lemma pixelate_preserves_dimensions_witness :
  exists out,
    pixelate 3 three_by_three 2 = Returned out /\
    width out = 3 /\ height out = 3.
Proof.
  apply (pixelate_preserves_dimensions three_by_three 2 3);
    [reflexivity | lia | unfold enough; simpl; lia].
Defined.

(** C4 (as amended). For a block size below 1 the engine makes no check:
    the loop counter never passes the limit, so [pixelate] never returns a
    buffer and never raises an error, whatever the fuel. *)
Theorem pixelate_below_one_never_returns
    (src : PixelBuffer) (blockSize : Z) (fuel : nat) :
  valid src = true -> blockSize < 1 ->
  pixelate fuel src blockSize = OutOfFuel.
Proof. intros Hv Hbs. apply pixelate_stuck; assumption. Qed.

Lemma pixelate_below_one_never_returns_witness :
  valid four_by_four = true /\ -3 < 1 /\
  pixelate 7 four_by_four (-3) = OutOfFuel.
Proof.
  split; [reflexivity|]. split; [lia|].
  apply (pixelate_below_one_never_returns four_by_four (-3) 7);
    [reflexivity | lia].
Defined.

(** C4 (as stated) fails: with block size 0 on a one-pixel image no
    [InvalidParameter] error is raised, the loop just keeps running. *)
Lemma pixelate_zero_no_invalid_parameter :
  valid one_pixel = true /\
  forall fuel,
    pixelate fuel one_pixel 0 = OutOfFuel /\
    pixelate fuel one_pixel 0 <> Thrown "InvalidParameter".
Proof.
  split; [reflexivity|]. intros fuel.
  rewrite pixelate_stuck by (reflexivity || lia).
  split; [reflexivity | discriminate].
Qed.

(** C5 (as amended). Pixelating an already pixelated image again at the
    same block size reproduces it: the grid of the second run starts at
    [(0, 0)] like the first and so falls on the same blocks. *)
Theorem pixelate_twice_same_size
    (src : PixelBuffer) (blockSize : Z) (f1 f2 : nat) :
  valid src = true -> 1 <= blockSize -> enough f1 src -> enough f2 src ->
  exists out,
    pixelate f1 src blockSize = Returned out /\
    valid out = true /\
    pixelate f2 out blockSize = Returned out.
Proof.
  intros Hv Hbs H1 H2. pose proof (stored_valid src Hv) as Hs.
  exists (pixelated (stored src) blockSize).
  split; [apply pixelate_run; assumption|].
  split; [apply pixelated_valid; assumption|].
  rewrite pixelate_run; try assumption.
  - rewrite stored_pixelated, pixelated_idempotent by assumption. reflexivity.
  - apply pixelated_valid; assumption.
Qed.

Lemma pixelate_twice_same_size_witness :
  exists out,
    pixelate 3 three_by_three 2 = Returned out /\
    valid out = true /\
    pixelate 5 out 2 = Returned out.
Proof.
  apply (pixelate_twice_same_size three_by_three 2 3 5);
    [reflexivity | lia | unfold enough; simpl; lia ..].
Defined.

(** C5 (as stated) fails: no valid source and block size exist for which
    the second run returns something else than the first. *)
Lemma no_repixelation_difference :
  ~ exists (src : PixelBuffer) (n : Z) (f1 f2 : nat) (out1 out2 : PixelBuffer),
      valid src = true /\ 1 <= n /\
      pixelate f1 src n = Returned out1 /\
      pixelate f2 out1 n = Returned out2 /\
      out2 <> out1.
Proof.
  intros (src & n & f1 & f2 & out1 & out2 & Hv & Hn & H1 & H2 & Hne).
  pose proof (stored_valid src Hv) as Hs.
  apply pixelate_returns in H1; [|assumption ..]. subst out1.
  apply pixelate_returns in H2;
    [|apply pixelated_valid; assumption | assumption].
  rewrite stored_pixelated, pixelated_idempotent in H2 by assumption.
  exact (Hne H2).
Qed.

(** C6. A run keeps the loaded source in the component, and a later run at
    another block size, on the canvas the first run has painted, exports
    what the engine gives for a freshly loaded source. *)
Theorem pixelateImage_runs_independent
    (src : PixelBuffer) (st : Component) (n2 : Z) (f1 f2 : nat) :
  originalImage st = Some src -> valid src = true ->
  1 <= pixelSize st -> 1 <= n2 -> enough f1 src -> enough f2 src ->
  exists st1 st2 out1 out2,
    pixelateImage f1 st = Returned st1 /\
    originalImage st1 = Some src /\
    pixelatedImage st1 = Some out1 /\
    pixelate f1 src (pixelSize st) = Returned out1 /\
    pixelateImage f2 (handlePixelSizeChange n2 st1) = Returned st2 /\
    originalImage st2 = Some src /\
    pixelatedImage st2 = Some out2 /\
    pixelate f2 src n2 = Returned out2.
Proof.
  intros Himg Hv Hn1 Hn2 H1 H2.
  destruct (pixelateImage_run f1 src st Himg Hv Hn1 H1)
    as (st1 & Hrun1 & Himg1 & Hout1 & _).
  destruct (pixelateImage_run f2 src (handlePixelSizeChange n2 st1)
              Himg1 Hv Hn2 H2) as (st2 & Hrun2 & Himg2 & Hout2 & _).
  exists st1, st2, (pixelated (stored src) (pixelSize st)),
         (pixelated (stored src) n2).
  repeat split; try assumption; apply pixelate_run; assumption.
Qed.

Lemma pixelateImage_runs_independent_witness :
  exists st1 st2 out1 out2,
    pixelateImage 3 (loaded three_by_three 2) = Returned st1 /\
    originalImage st1 = Some three_by_three /\
    pixelatedImage st1 = Some out1 /\
    pixelate 3 three_by_three 2 = Returned out1 /\
    pixelateImage 4 (handlePixelSizeChange 3 st1) = Returned st2 /\
    originalImage st2 = Some three_by_three /\
    pixelatedImage st2 = Some out2 /\
    pixelate 4 three_by_three 3 = Returned out2.
Proof.
  apply (pixelateImage_runs_independent
           three_by_three (loaded three_by_three 2) 3 3 4);
    [reflexivity | reflexivity | simpl; lia | lia
    | unfold enough; simpl; lia ..].
Defined.

(** C7 (as amended). When a dimension is not a multiple of the block size,
    every index read from [data] lies inside the array (the read is
    defined), the output bitmap still has exactly [width * height] pixels,
    and every pixel, also in the partial blocks at the right and bottom
    edges, is the opaque pixel painted at the corner of its block, which is
    the source pixel at that corner when that pixel is opaque. On a 3 by 3
    image with block size 2 the right column and bottom row are the
    one-pixel-wide blocks with corners [(2, 0)], [(0, 2)] and [(2, 2)]. *)
Theorem edge_blocks_stay_in_bounds
    (src : PixelBuffer) (blockSize : Z) (fuel : nat) :
  valid src = true -> 1 <= blockSize -> enough fuel src ->
  width src mod blockSize <> 0 \/ height src mod blockSize <> 0 ->
  (exists data r,
     getImageData
       (drawImage src
          (set_height (height src) (set_width (width src) fresh_canvas)))
     = Returned data /\
     pixelate_on fuel src blockSize fresh_canvas = Returned r /\
     pixelate fuel src blockSize = Returned (toDataURL (ctx r)) /\
     (forall i, i ∈ reads r ->
        0 <= i < 4 * (width src * height src) /\
        is_Some (data_get data i)) /\
     cwidth (ctx r) = width src /\ cheight (ctx r) = height src /\
     Z.of_nat (length (bitmap (ctx r))) = width src * height src /\
     (forall x y, 0 <= x < width src -> 0 <= y < height src ->
        exists p0 q,
          getPixel src (corner blockSize x) (corner blockSize y) = Some p0 /\
          getPixel (toDataURL (ctx r))
                   (corner blockSize x) (corner blockSize y) = Some q /\
          getPixel (toDataURL (ctx r)) x y = Some q /\
          alpha q = 255 /\
          (alpha p0 = 255 -> q = p0))) /\
  (forall p00 p10 p20 p01 p11 p21 p02 p12 p22 : Pixel,
     alpha p00 = 255 -> alpha p20 = 255 ->
     alpha p02 = 255 -> alpha p22 = 255 ->
     pixelate 2 (mkBuffer 3 3 [p00; p10; p20; p01; p11; p21; p02; p12; p22]) 2
     = Returned (mkBuffer 3 3
         [p00; p00; p20;
          p00; p00; p20;
          p02; p02; p22])).
Proof.
  intros Hv Hbs Hfuel _. split.
  - destruct (pixelate_on_run fuel src blockSize fresh_canvas Hv Hbs Hfuel)
      as (r & Hrun & Hout & Hreads).
    destruct (valid_dims src Hv) as (Hw & Hh & Hlen).
    exists (flat_map channels (pixels (stored src))), r.
    split.
    { rewrite canvas_setup by assumption. unfold getImageData; simpl.
      replace ((width src =? 0) || (height src =? 0)) with false by zbool.
      reflexivity. }
    split; [exact Hrun|].
    split; [rewrite Hout; apply pixelate_run; assumption|].
    split.
    { intros i Hi. rewrite Forall_forall in Hreads.
      pose proof (Hreads i Hi) as Hin. split.
      - unfold in_data in Hin. rewrite flat_map_channels_length in Hin.
        simpl in Hin. rewrite length_fmap in Hin. lia.
      - apply in_data_defined, Hin. }
    pose proof (f_equal width Hout) as Hcw.
    pose proof (f_equal height Hout) as Hch.
    pose proof (f_equal pixels Hout) as Hbm. simpl in Hcw, Hch, Hbm.
    split; [exact Hcw|]. split; [exact Hch|]. split.
    { rewrite Hbm. unfold painted_until.
      rewrite length_imap. simpl. rewrite length_fmap. exact Hlen. }
    intros x y Hx Hy. rewrite Hout.
    destruct (export_getPixel src blockSize x y Hv Hbs Hx Hy)
      as (p0 & Hp0 & Hpx).
    destruct (export_getPixel src blockSize _ _ Hv Hbs
                (corner_range blockSize Hbs _ _ Hx)
                (corner_range blockSize Hbs _ _ Hy)) as (p1 & Hp1 & Hc).
    rewrite !corner_corner in Hp1 by lia.
    assert (p1 = p0) as -> by congruence.
    exists p0, (opaque (canvas_read p0)).
    repeat (split; [assumption || reflexivity|]).
    apply opaque_canvas_read.
  - intros [r00 g00 b00 a00] p10 [r20 g20 b20 a20] p01 p11 p21
           [r02 g02 b02 a02] p12 [r22 g22 b22 a22]; simpl.
    intros -> -> -> ->.
    cbv -[premultiply unpremultiply].
    rewrite !round_trip_opaque. reflexivity.
Qed.

Lemma edge_blocks_stay_in_bounds_witness :
  width three_by_three mod 2 <> 0 /\
  exists r,
    pixelate_on 3 three_by_three 2 fresh_canvas = Returned r /\
    (forall i, i ∈ reads r -> 0 <= i < 4 * (3 * 3)) /\
    Z.of_nat (length (bitmap (ctx r))) = 3 * 3.
Proof.
  split; [vm_compute; lia|].
  destruct (edge_blocks_stay_in_bounds three_by_three 2 3)
    as ((data & r & _ & Hrun & _ & Hreads & _ & _ & Hlen & _) & _);
    [reflexivity | lia | unfold enough; simpl; lia | left; vm_compute; lia |].
  exists r. split; [exact Hrun|]. split; [|exact Hlen].
  intros i Hi. apply (Hreads i Hi).
Defined.

(** C7 (as stated) fails in its colouring part when a corner is
    translucent: in the 3 by 3 image [veiled] with block size 2 the corner
    [(2, 0)] of the right column's block is (216, 129, 154, 100), and the
    block is painted (217, 130, 153), the colour the canvas reads back. *)
Lemma edge_block_colour_differs_for_translucent_corner :
  valid veiled = true /\
  width veiled mod 2 <> 0 /\
  getPixel veiled 2 0 = Some (rgba 216 129 154 100) /\
  pixelate 3 veiled 2 =
  Returned (mkBuffer 3 3
    [grey 10; grey 10; rgba 217 130 153 255;
     grey 10; grey 10; rgba 217 130 153 255;
     grey 70; grey 70; grey 90]) /\
  red (rgba 217 130 153 255) <> red (rgba 216 129 154 100).
Proof.
  split; [reflexivity|]. split; [vm_compute; discriminate|].
  split; [reflexivity|]. split; [vm_compute; reflexivity | discriminate].
Qed.

(** C8 (as amended). With a block size above both dimensions the whole
    output is one solid colour: all output pixels are one and the same
    opaque pixel, which is the source pixel at [(0, 0)] when that pixel is
    opaque. *)
Theorem oversized_block_single_colour
    (src : PixelBuffer) (blockSize : Z) (fuel : nat) :
  valid src = true -> enough fuel src ->
  width src < blockSize -> height src < blockSize ->
  exists out p0 q,
    pixelate fuel src blockSize = Returned out /\
    getPixel src 0 0 = Some p0 /\
    alpha q = 255 /\
    (forall x y, 0 <= x < width src -> 0 <= y < height src ->
       getPixel out x y = Some q) /\
    (alpha p0 = 255 -> q = p0).
Proof.
  intros Hv Hfuel Hw Hh.
  destruct (valid_dims src Hv) as (Hw0 & Hh0 & _).
  assert (1 <= blockSize) as Hbs by lia.
  destruct (getPixel_valid src 0 0 Hv ltac:(lia) ltac:(lia)) as (p0 & Hp0 & _).
  exists (pixelated (stored src) blockSize), p0, (opaque (canvas_read p0)).
  split; [apply pixelate_run; assumption|].
  split; [exact Hp0|]. split; [reflexivity|]. split.
  - intros x y Hx Hy.
    destruct (export_getPixel src blockSize x y Hv Hbs Hx Hy)
      as (q & Hq & Hout).
    rewrite (corner_in_block blockSize 0 x),
            (corner_in_block blockSize 0 y) in Hq
      by (lia || apply Z.mod_0_l; lia).
    congruence.
  - apply opaque_canvas_read.
Qed.

Lemma oversized_block_single_colour_witness :
  width three_by_three < 4 /\ height three_by_three < 4 /\
  exists out p0 q,
    pixelate 3 three_by_three 4 = Returned out /\
    getPixel three_by_three 0 0 = Some p0 /\
    alpha q = 255 /\
    (forall x y, 0 <= x < 3 -> 0 <= y < 3 -> getPixel out x y = Some q) /\
    (alpha p0 = 255 -> q = p0).
Proof.
  split; [vm_compute; reflexivity|]. split; [vm_compute; reflexivity|].
  apply (oversized_block_single_colour three_by_three 4 3);
    [reflexivity | unfold enough; simpl; lia
    | vm_compute; reflexivity | vm_compute; reflexivity].
Defined.

(** C8 (as stated) fails when the source pixel at [(0, 0)] is translucent:
    the output pixel is opaque, so it is not that pixel record. *)
Lemma oversized_block_alpha_differs :
  valid translucent = true /\
  width translucent < 2 /\ height translucent < 2 /\
  exists out q,
    pixelate 1 translucent 2 = Returned out /\
    getPixel out 0 0 = Some q /\
    getPixel translucent 0 0 <> Some q.
Proof.
  split; [reflexivity|]. split; [reflexivity|]. split; [reflexivity|].
  exists (mkBuffer 1 1 [rgba 10 20 30 255]), (rgba 10 20 30 255).
  split; [reflexivity|]. split; [reflexivity | discriminate].
Qed.

(** C9. The export depends on the source and the block size only: two
    runs of the component with the same image and size, from any canvas
    contents, any previous export and any (sufficient) fuel, export the same
    buffer, which is the engine's result. *)
Theorem pixelate_deterministic
    (src : PixelBuffer) (blockSize : Z) (st1 st2 : Component) (f1 f2 : nat) :
  valid src = true -> 1 <= blockSize ->
  originalImage st1 = Some src -> originalImage st2 = Some src ->
  pixelSize st1 = blockSize -> pixelSize st2 = blockSize ->
  enough f1 src -> enough f2 src ->
  exists out st1' st2',
    pixelateImage f1 st1 = Returned st1' /\
    pixelateImage f2 st2 = Returned st2' /\
    pixelatedImage st1' = Some out /\
    pixelatedImage st2' = Some out /\
    pixelate f1 src blockSize = Returned out /\
    pixelate f2 src blockSize = Returned out.
Proof.
  intros Hv Hbs Hi1 Hi2 Hs1 Hs2 H1 H2.
  destruct (pixelateImage_run f1 src st1 Hi1 Hv ltac:(lia) H1)
    as (st1' & Hrun1 & _ & Hout1 & _).
  destruct (pixelateImage_run f2 src st2 Hi2 Hv ltac:(lia) H2)
    as (st2' & Hrun2 & _ & Hout2 & _).
  rewrite Hs1 in Hout1. rewrite Hs2 in Hout2.
  exists (pixelated (stored src) blockSize), st1', st2'.
  repeat split; try assumption; apply pixelate_run; assumption.
Qed.

Lemma pixelate_deterministic_witness :
  exists out st1' st2',
    pixelateImage 3 (loaded three_by_three 2) = Returned st1' /\
    pixelateImage 9
      (mkComponent (Some three_by_three) (Some one_pixel) 2 true stale_canvas)
    = Returned st2' /\
    pixelatedImage st1' = Some out /\
    pixelatedImage st2' = Some out /\
    pixelate 3 three_by_three 2 = Returned out /\
    pixelate 9 three_by_three 2 = Returned out.
Proof.
  apply (pixelate_deterministic three_by_three 2);
    try reflexivity; try lia; unfold enough; simpl; lia.
Defined.

(** C10. For a valid source and a block size of at least 1 the double loop
    terminates: each pass adds the block size to its counter, so
    [max width height] units of fuel, or more, always give a result. *)
Theorem pixelate_terminates (src : PixelBuffer) (blockSize : Z) :
  valid src = true -> 1 <= blockSize ->
  forall fuel,
    (Z.to_nat (Z.max (width src) (height src)) <= fuel)%nat ->
    exists out, pixelate fuel src blockSize = Returned out.
Proof.
  intros Hv Hbs fuel Hfuel. exists (pixelated (stored src) blockSize).
  apply pixelate_run; try assumption. unfold enough. lia.
Qed.

Lemma pixelate_terminates_witness :
  exists out, pixelate 4 four_by_four 3 = Returned out.
Proof.
  apply (pixelate_terminates four_by_four 3);
    [reflexivity | lia | vm_compute; lia].
Defined.

(** ** Further properties of the filter *)

Lemma block_dims (data : list Z) (bs y x : Z) (r : Run) :
  cwidth (ctx (block data bs y x r)) = cwidth (ctx r) /\
  cheight (ctx (block data bs y x r)) = cheight (ctx r).
Proof.
  unfold block, fillRect, set_fillStyle_rgb; cbv zeta; cbn [ctx].
  repeat match goal with
         | |- context [data_get ?d ?i] => destruct (data_get d i)
         end;
    destruct ((bs =? 0) || (bs =? 0)); simpl; auto.
Qed.

Lemma block_reads_log (data : list Z) (bs y x : Z) (r : Run) :
  reads (block data bs y x r) = reads r ++ block_reads (cwidth (ctx r)) y x.
Proof. reflexivity. Qed.

Lemma grid_S (bs : Z) (n : nat) :
  grid bs (Datatypes.S n) = grid bs n ++ [bs * Z.of_nat n].
Proof. unfold grid. rewrite seq_S, fmap_app. reflexivity. Qed.

Lemma row_reads_S (w bs y : Z) (n : nat) :
  row_reads w bs y (Datatypes.S n) =
  row_reads w bs y n ++ block_reads w y (bs * Z.of_nat n).
Proof.
  unfold row_reads. rewrite grid_S, flat_map_app. simpl.
  rewrite ?app_nil_r. reflexivity.
Qed.

Lemma all_reads_S (w bs : Z) (nx n : nat) :
  all_reads w bs nx (Datatypes.S n) =
  all_reads w bs nx n ++ row_reads w bs (bs * Z.of_nat n) nx.
Proof.
  unfold all_reads. rewrite grid_S, flat_map_app. simpl.
  rewrite ?app_nil_r. reflexivity.
Qed.

(** The counter leaves the loop after exactly [passes limit bs] steps. *)
Lemma passes_exit (limit bs : Z) (k : nat) :
  1 <= bs -> bs * Z.of_nat k - bs < limit <= bs * Z.of_nat k ->
  passes limit bs = k.
Proof.
  intros Hbs Hk. unfold passes.
  rewrite <- (Z.div_unique (limit + bs - 1) bs (Z.of_nat k)
                           (limit + bs - 1 - bs * Z.of_nat k)); lia.
Qed.

Lemma grid_elem (limit bs v : Z) :
  1 <= bs -> 0 < limit ->
  v ∈ grid bs (passes limit bs) <-> 0 <= v < limit /\ v mod bs = 0.
Proof.
  intros Hbs Hlim. unfold grid, passes.
  assert (0 <= (limit + bs - 1) / bs) as Hq0 by (apply Z.div_pos; lia).
  pose proof (Z.mul_div_le (limit + bs - 1) bs ltac:(lia)) as Hle.
  pose proof (Z.mod_pos_bound (limit + bs - 1) bs ltac:(lia)) as Hmod.
  pose proof (Z.div_mod (limit + bs - 1) bs ltac:(lia)) as Hdm.
  rewrite list_elem_of_fmap. split.
  - intros (k & -> & Hk). apply elem_of_seq in Hk.
    split; [nia|]. rewrite Z.mul_comm. apply Z.mod_mul. lia.
  - intros (Hv & Hvm).
    pose proof (Z.div_mod v bs ltac:(lia)) as Hvd. rewrite Hvm in Hvd.
    assert (0 <= v / bs) by (apply Z.div_pos; lia).
    exists (Z.to_nat (v / bs)). split; [lia|].
    apply elem_of_seq. nia.
Qed.

Section ReadLog.
Variables (data : list Z) (bs w h : Z).
Hypothesis Hbs : 1 <= bs.
Hypothesis Hw : 0 < w.
Hypothesis Hh : 0 < h.

Lemma row_reads_run (fuel : nat) (y : Z) (r0 : Run) :
  w <= Z.of_nat fuel -> cwidth (ctx r0) = w ->
  exists r,
    pixelate_row fuel data bs y r0 = Returned r /\
    cwidth (ctx r) = w /\ cheight (ctx r) = cheight (ctx r0) /\
    reads r = reads r0 ++ row_reads w bs y (passes w bs).
Proof.
  intros Hfuel Hcw. unfold pixelate_row. rewrite Hcw.
  destruct (for_loop_inv w bs
              (fun x r => Returned (block data bs y x r))
              (fun x r =>
                 cwidth (ctx r) = w /\ cheight (ctx r) = cheight (ctx r0) /\
                 exists k : nat,
                   x = bs * Z.of_nat k /\ x - bs < w /\
                   reads r = reads r0 ++ row_reads w bs y k) Hbs)
    with (fuel := fuel) (i := 0) (s := r0)
    as (x' & r & Hrun & Hx' & Hcw' & Hch' & k & Hk & Hlt & Hreads).
  - intros x r Hx (Hcw1 & Hch1 & k & -> & Hlt & Hreads).
    eexists; split; [reflexivity|].
    destruct (block_dims data bs y (bs * Z.of_nat k) r) as (-> & ->).
    split; [assumption|]. split; [assumption|].
    exists (Datatypes.S k). split; [lia|]. split; [lia|].
    rewrite block_reads_log, Hreads, Hcw1, row_reads_S, app_assoc.
    reflexivity.
  - lia.
  - split; [assumption|]. split; [reflexivity|].
    exists 0%nat. split; [lia|]. split; [lia|].
    unfold row_reads; simpl. rewrite app_nil_r. reflexivity.
  - exists r. split; [exact Hrun|]. split; [assumption|].
    split; [assumption|].
    rewrite (passes_exit w bs k Hbs ltac:(lia)). exact Hreads.
Qed.

Lemma loops_reads_run (fuel : nat) (r0 : Run) :
  w <= Z.of_nat fuel -> h <= Z.of_nat fuel ->
  cwidth (ctx r0) = w -> cheight (ctx r0) = h ->
  exists r,
    pixelate_loops fuel data bs r0 = Returned r /\
    reads r = reads r0 ++ all_reads w bs (passes w bs) (passes h bs).
Proof.
  intros Hfw Hfh Hcw Hch. unfold pixelate_loops. rewrite Hch.
  destruct (for_loop_inv h bs (pixelate_row fuel data bs)
              (fun y r =>
                 cwidth (ctx r) = w /\ cheight (ctx r) = h /\
                 exists k : nat,
                   y = bs * Z.of_nat k /\ y - bs < h /\
                   reads r = reads r0 ++ all_reads w bs (passes w bs) k) Hbs)
    with (fuel := fuel) (i := 0) (s := r0)
    as (y' & r & Hrun & Hy' & Hcw' & Hch' & k & Hk & Hlt & Hreads).
  - intros y r Hy (Hcw1 & Hch1 & k & -> & Hlt & Hreads).
    destruct (row_reads_run fuel (bs * Z.of_nat k) r Hfw Hcw1)
      as (r' & Hrun & Hcw2 & Hch2 & Hreads2).
    exists r'. split; [exact Hrun|].
    split; [assumption|]. split; [congruence|].
    exists (Datatypes.S k). split; [lia|]. split; [lia|].
    rewrite Hreads2, Hreads, all_reads_S, app_assoc. reflexivity.
  - lia.
  - split; [assumption|]. split; [assumption|].
    exists 0%nat. split; [lia|]. split; [lia|].
    unfold all_reads; simpl. rewrite app_nil_r. reflexivity.
  - exists r. split; [exact Hrun|].
    rewrite (passes_exit h bs k Hbs ltac:(lia)). exact Hreads.
Qed.
End ReadLog.

Lemma pixelate_on_reads (fuel : nat) (src : PixelBuffer) (bs : Z) (c : Canvas) :
  valid src = true -> 1 <= bs -> enough fuel src ->
  exists r,
    pixelate_on fuel src bs c = Returned r /\
    reads r = all_reads (width src) bs (passes (width src) bs)
                        (passes (height src) bs).
Proof.
  intros Hv Hbs (Hfw & Hfh).
  destruct (valid_dims src Hv) as (Hw & Hh & Hlen).
  unfold pixelate_on. rewrite canvas_setup by assumption.
  unfold getImageData; simpl.
  replace ((width src =? 0) || (height src =? 0)) with false by zbool.
  simpl.
  apply (loops_reads_run _ bs (width src) (height src) Hbs Hw Hh fuel
           (mkRun (mkCanvas (width src) (height src) (pixels (stored src))
                            (0, 0, 0)) []));
    auto.
Qed.

Lemma row_reads_length (w bs y : Z) (n : nat) :
  length (row_reads w bs y n) = (3 * n)%nat.
Proof.
  induction n as [|n IH]; [reflexivity|].
  rewrite row_reads_S, length_app, IH. simpl. lia.
Qed.

Lemma all_reads_length (w bs : Z) (nx ny : nat) :
  length (all_reads w bs nx ny) = (3 * (nx * ny))%nat.
Proof.
  induction ny as [|ny IH]; [simpl; lia|].
  rewrite all_reads_S, length_app, IH, row_reads_length. lia.
Qed.

Lemma all_reads_elem (w h bs i : Z) :
  1 <= bs -> 0 < w -> 0 < h ->
  i ∈ all_reads w bs (passes w bs) (passes h bs) <->
  exists x y c,
    0 <= x < w /\ 0 <= y < h /\ x mod bs = 0 /\ y mod bs = 0 /\
    0 <= c <= 2 /\ i = (y * w + x) * 4 + c.
Proof.
  intros Hbs Hw Hh. unfold all_reads, row_reads.
  rewrite list_elem_of_In, in_flat_map. split.
  - intros (y & Hy & Hi). apply in_flat_map in Hi. destruct Hi as (x & Hx & Hi).
    apply list_elem_of_In, grid_elem in Hy; [|assumption ..].
    apply list_elem_of_In, grid_elem in Hx; [|assumption ..].
    exists x, y. unfold block_reads in Hi. simpl in Hi.
    destruct Hi as [<- | [<- | [<- | []]]];
      [exists 0 | exists 1 | exists 2]; repeat split; lia.
  - intros (x & y & c & Hx & Hy & Hxm & Hym & Hc & ->).
    exists y. split.
    { apply list_elem_of_In, grid_elem; auto. }
    apply in_flat_map. exists x. split.
    { apply list_elem_of_In, grid_elem; auto. }
    unfold block_reads; simpl.
    assert (c = 0 \/ c = 1 \/ c = 2) as [-> | [-> | ->]] by lia;
      rewrite ?Z.add_0_r; auto.
Qed.

Lemma flat_map_channels_alpha (l : list Pixel) :
  forall (i : nat) (p : Pixel),
    l !! i = Some p ->
    flat_map channels l !! (4 * i + 3)%nat = Some (alpha p).
Proof.
  induction l as [|q l IH]; intros i p Hi; [discriminate|].
  destruct i as [|i]; simpl in Hi.
  - injection Hi as ->. reflexivity.
  - replace (4 * Datatypes.S i + 3)%nat with (4 + (4 * i + 3))%nat by lia.
    simpl. apply IH. exact Hi.
Qed.

Lemma corner_multiple (n m v : Z) :
  1 <= n -> 1 <= m -> m mod n = 0 -> 0 <= v ->
  corner n (corner m v) = corner m v.
Proof.
  intros Hn Hm Hmn Hv.
  destruct (corner_bounds m v ltac:(lia) Hv) as (Hc & _).
  apply corner_in_block; [lia | | lia].
  apply Z.mod_divide; [lia|]. unfold corner.
  apply Z.divide_mul_l, Z.mod_divide; [lia | exact Hmn].
Qed.

(** Pixelating at [m] an image already pixelated at a divisor [n] of [m]
    gives what pixelating the source at [m] gives. *)
Lemma pixelated_compose (src : PixelBuffer) (n m : Z) :
  valid src = true -> 1 <= n -> 1 <= m -> m mod n = 0 ->
  pixelated (pixelated src n) m = pixelated src m.
Proof.
  intros Hv Hn Hm Hmn.
  destruct (valid_dims src Hv) as (Hw & Hh & Hlen).
  unfold pixelated at 1 3. simpl. f_equal.
  unfold painted_until at 1. simpl.
  apply list_eq; intros i. unfold painted_until.
  rewrite !list_lookup_imap.
  destruct (pixels src !! i) as [q|] eqn:Hq; [simpl|reflexivity].
  f_equal. apply lookup_lt_Some in Hq.
  destruct (col_row_bounds (width src) (height src) i Hw ltac:(lia))
    as (Hc & Hr & _).
  unfold sample at 1. simpl.
  rewrite (pixelated_lookup src n Hv)
    by (apply corner_range; assumption || lia).
  simpl. rewrite !(corner_multiple n m) by (assumption || lia). reflexivity.
Qed.

Lemma sample_stored_agree (s1 s2 : PixelBuffer) (x y : Z) :
  valid s1 = true -> valid s2 = true ->
  width s1 = width s2 -> height s1 = height s2 ->
  0 <= x < width s1 -> 0 <= y < height s1 ->
  getPixel s1 x y = getPixel s2 x y ->
  sample (stored s1) x y = sample (stored s2) x y.
Proof.
  intros Hv1 Hv2 Hw Hh Hx Hy Hsame.
  destruct (sample_source (stored s1) (stored_valid s1 Hv1) x y Hx Hy)
    as (p & Hp & ->).
  destruct (sample_source (stored s2) (stored_valid s2 Hv2) x y)
    as (q & Hq & ->); [simpl; lia | simpl; lia |].
  rewrite getPixel_stored in Hp, Hq. rewrite Hsame in Hp. congruence.
Qed.

(** X1. The reads of a run are exactly, in program order, the red, green
    and blue entries of the block corners, block row by block row; there are
    three reads for each of the [passes width * passes height] blocks. *)
Theorem reads_are_the_corner_channels
    (src : PixelBuffer) (blockSize : Z) (fuel : nat) (c : Canvas) :
  valid src = true -> 1 <= blockSize -> enough fuel src ->
  exists r,
    pixelate_on fuel src blockSize c = Returned r /\
    reads r = all_reads (width src) blockSize
                (passes (width src) blockSize) (passes (height src) blockSize) /\
    length (reads r) =
      (3 * (passes (width src) blockSize * passes (height src) blockSize))%nat.
Proof.
  intros Hv Hbs Hfuel.
  destruct (pixelate_on_reads fuel src blockSize c Hv Hbs Hfuel)
    as (r & Hrun & Hreads).
  exists r. split; [exact Hrun|]. split; [exact Hreads|].
  rewrite Hreads. apply all_reads_length.
Qed.

Lemma reads_are_the_corner_channels_witness :
  exists r,
    pixelate_on 3 three_by_three 2 stale_canvas = Returned r /\
    reads r = all_reads 3 2 (passes 3 2) (passes 3 2) /\
    length (reads r) = (3 * (passes 3 2 * passes 3 2))%nat.
Proof.
  apply (reads_are_the_corner_channels three_by_three 2 3 stale_canvas);
    [reflexivity | lia | unfold enough; simpl; lia].
Defined.

(** X2. An index of [data] is read exactly when it is the red, green or blue
    entry of a pixel whose coordinates are both multiples of the block size:
    the alpha entries and the pixels inside a block are never read. *)
Theorem read_iff_corner_colour_channel
    (src : PixelBuffer) (blockSize : Z) (fuel : nat) (c : Canvas) :
  valid src = true -> 1 <= blockSize -> enough fuel src ->
  exists r,
    pixelate_on fuel src blockSize c = Returned r /\
    forall i,
      i ∈ reads r <->
      exists x y ch,
        0 <= x < width src /\ 0 <= y < height src /\
        x mod blockSize = 0 /\ y mod blockSize = 0 /\
        0 <= ch <= 2 /\ i = (y * width src + x) * 4 + ch.
Proof.
  intros Hv Hbs Hfuel.
  destruct (valid_dims src Hv) as (Hw & Hh & _).
  destruct (pixelate_on_reads fuel src blockSize c Hv Hbs Hfuel)
    as (r & Hrun & Hreads).
  exists r. split; [exact Hrun|]. intros i. rewrite Hreads.
  apply all_reads_elem; assumption.
Qed.

Lemma read_iff_corner_colour_channel_witness :
  exists r,
    pixelate_on 4 four_by_four 2 fresh_canvas = Returned r /\
    forall i,
      i ∈ reads r <->
      exists x y ch,
        0 <= x < 4 /\ 0 <= y < 4 /\ x mod 2 = 0 /\ y mod 2 = 0 /\
        0 <= ch <= 2 /\ i = (y * 4 + x) * 4 + ch.
Proof.
  apply (read_iff_corner_colour_channel four_by_four 2 4 fresh_canvas);
    [reflexivity | lia | unfold enough; simpl; lia].
Defined.

(** X3. The output is fully opaque: every pixel of the returned buffer has
    alpha 255, whatever the alpha of the source. *)
Theorem output_is_opaque (src : PixelBuffer) (blockSize : Z) (fuel : nat) :
  valid src = true -> 1 <= blockSize -> enough fuel src ->
  exists out,
    pixelate fuel src blockSize = Returned out /\
    Forall (fun p => alpha p = 255) (pixels out).
Proof.
  intros Hv Hbs Hfuel. exists (pixelated (stored src) blockSize).
  split; [apply pixelate_run; assumption | apply pixelated_opaque].
Qed.

Lemma output_is_opaque_witness :
  exists out,
    pixelate 1 translucent 1 = Returned out /\
    Forall (fun p => alpha p = 255) (pixels out).
Proof.
  apply (output_is_opaque translucent 1 1);
    [reflexivity | lia | unfold enough; simpl; lia].
Defined.

(** X4. The output is constant on every cell of the block grid, the partial
    cells at the right and bottom edges included: two pixels with the same
    block column and block row come out as the same pixel record. *)
Theorem output_constant_on_blocks
    (src : PixelBuffer) (blockSize : Z) (fuel : nat) (x1 y1 x2 y2 : Z) :
  valid src = true -> 1 <= blockSize -> enough fuel src ->
  0 <= x1 < width src -> 0 <= y1 < height src ->
  0 <= x2 < width src -> 0 <= y2 < height src ->
  x1 / blockSize = x2 / blockSize -> y1 / blockSize = y2 / blockSize ->
  exists out q,
    pixelate fuel src blockSize = Returned out /\
    getPixel out x1 y1 = Some q /\ getPixel out x2 y2 = Some q.
Proof.
  intros Hv Hbs Hfuel Hx1 Hy1 Hx2 Hy2 Hx Hy.
  destruct (export_getPixel src blockSize x1 y1 Hv Hbs Hx1 Hy1)
    as (p1 & Hp1 & Ho1).
  destruct (export_getPixel src blockSize x2 y2 Hv Hbs Hx2 Hy2)
    as (p2 & Hp2 & Ho2).
  unfold corner in Hp1, Hp2. rewrite Hx, Hy in Hp1.
  assert (p1 = p2) as -> by congruence.
  exists (pixelated (stored src) blockSize), (opaque (canvas_read p2)).
  split; [apply pixelate_run; assumption|]. auto.
Qed.

Lemma output_constant_on_blocks_witness :
  exists out q,
    pixelate 3 three_by_three 2 = Returned out /\
    getPixel out 0 2 = Some q /\ getPixel out 1 2 = Some q.
Proof.
  apply (output_constant_on_blocks three_by_three 2 3 0 2 1 2);
    try reflexivity; try (unfold enough; simpl; lia); simpl; lia.
Defined.

(** X5. The output depends on the pixels at the block corners only: two
    images of the same size that have the same pixels at the corners are
    pixelated to the same buffer, however they differ inside the blocks. *)
Theorem output_depends_on_corner_pixels_only
    (s1 s2 : PixelBuffer) (blockSize : Z) (fuel : nat) :
  valid s1 = true -> valid s2 = true ->
  width s1 = width s2 -> height s1 = height s2 ->
  1 <= blockSize -> enough fuel s1 ->
  (forall x y,
     0 <= x < width s1 -> 0 <= y < height s1 ->
     x mod blockSize = 0 -> y mod blockSize = 0 ->
     getPixel s1 x y = getPixel s2 x y) ->
  exists out,
    pixelate fuel s1 blockSize = Returned out /\
    pixelate fuel s2 blockSize = Returned out.
Proof.
  intros Hv1 Hv2 Hw Hh Hbs Hfuel Hsame.
  destruct (valid_dims s1 Hv1) as (Hw1 & Hh1 & Hlen1).
  destruct (valid_dims s2 Hv2) as (_ & _ & Hlen2).
  exists (pixelated (stored s1) blockSize).
  split; [apply pixelate_run; assumption|].
  rewrite pixelate_run;
    [| assumption | assumption
     | unfold enough in *; rewrite <- Hw, <- Hh; assumption].
  f_equal. unfold pixelated. simpl. rewrite <- Hw, <- Hh. f_equal.
  unfold painted_until. simpl. rewrite <- Hw.
  apply list_eq; intros i. rewrite !list_lookup_imap, !list_lookup_fmap.
  destruct (pixels s1 !! i) as [a|] eqn:H1;
    destruct (pixels s2 !! i) as [b|] eqn:H2; simpl.
  - f_equal. apply lookup_lt_Some in H1.
    destruct (col_row_bounds (width s1) (height s1) i Hw1 ltac:(lia))
      as (Hc & Hr & _).
    destruct (corner_bounds blockSize (col (width s1) i) ltac:(lia) ltac:(lia)).
    destruct (corner_bounds blockSize (row (width s1) i) ltac:(lia) ltac:(lia)).
    symmetry. apply sample_stored_agree; try assumption; try lia.
    apply Hsame; assumption || lia.
  - apply lookup_lt_Some in H1. apply lookup_ge_None in H2. lia.
  - apply lookup_lt_Some in H2. apply lookup_ge_None in H1. lia.
  - reflexivity.
Qed.

Lemma output_depends_on_corner_pixels_only_witness :
  exists out,
    pixelate 2 (mkBuffer 2 2 [rgba 10 20 30 7; red_px; blue_px; grey 5]) 2
    = Returned out /\
    pixelate 2 (mkBuffer 2 2 [rgba 10 20 30 7; grey 9; rgba 1 2 3 4; red_px]) 2
    = Returned out.
Proof.
  apply (output_depends_on_corner_pixels_only
           (mkBuffer 2 2 [rgba 10 20 30 7; red_px; blue_px; grey 5])
           (mkBuffer 2 2 [rgba 10 20 30 7; grey 9; rgba 1 2 3 4; red_px]) 2 2);
    try reflexivity; try lia; [unfold enough; simpl; lia|].
  intros x y Hx Hy Hxm Hym. simpl in Hx, Hy.
  assert (x = 0 \/ x = 1) as [-> | ->] by lia; [|vm_compute in Hxm; lia].
  assert (y = 0 \/ y = 1) as [-> | ->] by lia; [|vm_compute in Hym; lia].
  reflexivity.
Defined.

(** X6. The fixed points of the filter: [pixelate] returns its source
    unchanged exactly when every source pixel already is the opaque copy of
    the pixel at the corner of its block. *)
Theorem unchanged_iff_already_pixelated
    (src : PixelBuffer) (blockSize : Z) (fuel : nat) :
  valid src = true -> 1 <= blockSize -> enough fuel src ->
  (pixelate fuel src blockSize = Returned src <->
   forall x y, 0 <= x < width src -> 0 <= y < height src ->
     exists p0,
       getPixel src (corner blockSize x) (corner blockSize y) = Some p0 /\
       getPixel src x y = Some (opaque p0)).
Proof.
  intros Hv Hbs Hfuel. rewrite pixelate_run by assumption.
  destruct (valid_dims src Hv) as (Hw & Hh & Hlen). split.
  - intros Heq. injection Heq as Heq.
    assert (Forall (fun p => alpha p = 255) (pixels src)) as Hop
        by (rewrite <- Heq; apply pixelated_opaque).
    rewrite (stored_opaque src Hop) in Heq.
    intros x y Hx Hy.
    destruct (pixelated_getPixel src blockSize Hv Hbs x y Hx Hy)
      as (p0 & Hp0 & Hout).
    rewrite Heq in Hout. eauto.
  - intros Hall.
    assert (Forall (fun p => alpha p = 255) (pixels src)) as Hop.
    { apply Forall_lookup. intros i p Hp.
      pose proof (lookup_lt_Some _ _ _ Hp) as Hi.
      destruct (col_row_bounds (width src) (height src) i Hw ltac:(lia))
        as (Hc & Hr & Hidx).
      destruct (Hall _ _ Hc Hr) as (p0 & _ & Hg).
      destruct (getPixel_valid src _ _ Hv Hc Hr) as (p2 & Hg2 & Hl2).
      rewrite Hidx, Nat2Z.id in Hl2.
      assert (p = opaque p0) as -> by congruence. reflexivity. }
    rewrite (stored_opaque src Hop). f_equal.
    transitivity (mkBuffer (width src) (height src) (pixels src));
      [|destruct src; reflexivity].
    unfold pixelated. f_equal. unfold painted_until.
    apply list_eq; intros i. rewrite list_lookup_imap.
    destruct (pixels src !! i) as [q|] eqn:Hq; [simpl|reflexivity].
    f_equal. pose proof (lookup_lt_Some _ _ _ Hq) as Hi.
    destruct (col_row_bounds (width src) (height src) i Hw ltac:(lia))
      as (Hc & Hr & Hidx).
    destruct (Hall _ _ Hc Hr) as (p0 & Hp0 & Hp).
    destruct (sample_source src Hv _ _
                (corner_range blockSize Hbs _ _ Hc)
                (corner_range blockSize Hbs _ _ Hr)) as (p1 & Hp1 & ->).
    destruct (getPixel_valid src _ _ Hv Hc Hr) as (p2 & Hg2 & Hl2).
    rewrite Hidx, Nat2Z.id in Hl2. congruence.
Qed.

Lemma unchanged_iff_already_pixelated_witness :
  pixelate 4 four_by_four 1 = Returned four_by_four <->
  forall x y, 0 <= x < 4 -> 0 <= y < 4 ->
    exists p0,
      getPixel four_by_four (corner 1 x) (corner 1 y) = Some p0 /\
      getPixel four_by_four x y = Some (opaque p0).
Proof.
  apply (unchanged_iff_already_pixelated four_by_four 1 4);
    [reflexivity | lia | unfold enough; simpl; lia].
Defined.

(** X7. A coarser grid absorbs a finer one: when the block size [m] is a
    multiple of [n], pixelating at [n] and then at [m] gives what pixelating
    the source at [m] gives. *)
Theorem coarser_after_finer
    (src : PixelBuffer) (n m : Z) (f1 f2 f3 : nat) :
  valid src = true -> 1 <= n -> 1 <= m -> m mod n = 0 ->
  enough f1 src -> enough f2 src -> enough f3 src ->
  exists out1 out2,
    pixelate f1 src n = Returned out1 /\
    pixelate f2 out1 m = Returned out2 /\
    pixelate f3 src m = Returned out2.
Proof.
  intros Hv Hn Hm Hmn H1 H2 H3.
  pose proof (stored_valid src Hv) as Hs.
  exists (pixelated (stored src) n), (pixelated (stored src) m).
  split; [apply pixelate_run; assumption|].
  split; [|apply pixelate_run; assumption].
  rewrite pixelate_run;
    [| apply pixelated_valid; assumption | assumption | exact H2].
  rewrite stored_pixelated, pixelated_compose by assumption. reflexivity.
Qed.

Lemma coarser_after_finer_witness :
  exists out1 out2,
    pixelate 4 four_by_four 2 = Returned out1 /\
    pixelate 5 out1 4 = Returned out2 /\
    pixelate 6 four_by_four 4 = Returned out2.
Proof.
  apply (coarser_after_finer four_by_four 2 4 4 5 6);
    try reflexivity; try lia; unfold enough; simpl; lia.
Defined.

(** X8. An image of zero width or zero height makes [getImageData] raise
    [IndexSizeError]: the callback stops there, for any block size, any
    fuel and any canvas, and nothing is exported. *)
Theorem zero_area_raises_index_size_error
    (src : PixelBuffer) (blockSize : Z) (fuel : nat) (st : Component) :
  width src = 0 \/ height src = 0 ->
  originalImage st = Some src ->
  pixelate_on fuel src blockSize (canvas st) = Thrown "IndexSizeError" /\
  pixelateImage fuel st = Thrown "IndexSizeError" /\
  pixelate fuel src blockSize = Thrown "IndexSizeError".
Proof.
  intros Hzero Himg.
  assert (forall bs c, pixelate_on fuel src bs c = Thrown "IndexSizeError")
    as Hon.
  { intros bs c. unfold pixelate_on, getImageData; simpl.
    destruct Hzero as [-> | ->]; simpl; [reflexivity|].
    rewrite orb_true_r. reflexivity. }
  split; [apply Hon|]. split.
  - unfold pixelateImage. rewrite Himg, Hon. reflexivity.
  - unfold pixelate. rewrite Hon. reflexivity.
Qed.

Lemma zero_area_raises_index_size_error_witness :
  pixelate_on 5 (mkBuffer 0 7 []) 10 fresh_canvas = Thrown "IndexSizeError" /\
  pixelateImage 5 (loaded (mkBuffer 0 7 []) 10) = Thrown "IndexSizeError" /\
  pixelate 5 (mkBuffer 0 7 []) 10 = Thrown "IndexSizeError".
Proof.
  apply (zero_area_raises_index_size_error
           (mkBuffer 0 7 []) 10 5 (loaded (mkBuffer 0 7 []) 10));
    [left; reflexivity | reflexivity].
Defined.

(** X9. The index arithmetic of the loop body is right: in the array that
    [getImageData] returns after the image was drawn, on any canvas, the
    entry at [(y * width + x) * 4 + 3] is the alpha of the image's pixel at
    [(x, y)] and, when that pixel is opaque, the three entries before it are
    its red, green and blue channels. *)
Theorem data_index_addresses_pixel (img : PixelBuffer) (c : Canvas) (x y : Z) :
  valid img = true -> 0 <= x < width img -> 0 <= y < height img ->
  exists data p,
    getImageData
      (drawImage img (set_height (height img) (set_width (width img) c)))
    = Returned data /\
    getPixel img x y = Some p /\
    let pixelIndex := (y * width img + x) * 4 in
    data_get data (pixelIndex + 3) = Some (alpha p) /\
    (alpha p = 255 ->
     data_get data pixelIndex = Some (red p) /\
     data_get data (pixelIndex + 1) = Some (green p) /\
     data_get data (pixelIndex + 2) = Some (blue p)).
Proof.
  intros Hv Hx Hy. destruct (valid_dims img Hv) as (Hw & Hh & Hlen).
  destruct (getPixel_valid img x y Hv Hx Hy) as (p & Hg & Hp).
  assert (pixels (stored img) !! Z.to_nat (y * width img + x)
          = Some (canvas_read p)) as Hs
      by (simpl; rewrite list_lookup_fmap, Hp; reflexivity).
  exists (flat_map channels (pixels (stored img))), p.
  split.
  { rewrite canvas_setup by assumption. unfold getImageData; simpl.
    replace ((width img =? 0) || (height img =? 0)) with false by zbool.
    reflexivity. }
  split; [exact Hg|]. intros pixelIndex. split.
  - subst pixelIndex. unfold data_get.
    replace (Z.to_nat ((y * width img + x) * 4 + 3))
      with (4 * Z.to_nat (y * width img + x) + 3)%nat by lia.
    rewrite (flat_map_channels_alpha _ _ _ Hs), canvas_read_alpha. zbool.
  - intros Ha. rewrite (canvas_read_opaque p Ha) in Hs.
    exact (data_get_pixel (pixels (stored img)) (width img) x y p
             ltac:(nia) Hs).
Qed.

Lemma data_index_addresses_pixel_witness :
  exists data p,
    getImageData (drawImage veiled (set_height 3 (set_width 3 stale_canvas)))
    = Returned data /\
    getPixel veiled 2 1 = Some p /\
    let pixelIndex := (1 * 3 + 2) * 4 in
    data_get data (pixelIndex + 3) = Some (alpha p) /\
    (alpha p = 255 ->
     data_get data pixelIndex = Some (red p) /\
     data_get data (pixelIndex + 1) = Some (green p) /\
     data_get data (pixelIndex + 2) = Some (blue p)).
Proof.
  apply (data_index_addresses_pixel veiled stale_canvas 2 1);
    [reflexivity | simpl; lia | simpl; lia].
Defined.

(** X10. One block is reached as soon as the block size is at least both
    dimensions (equality included): only the pixel at [(0, 0)] is sampled,
    with the reads [0], [1] and [2], and the whole output is one opaque
    pixel, the source pixel at [(0, 0)] when that pixel is opaque. *)
Theorem block_size_reaching_dimensions_single_block
    (src : PixelBuffer) (blockSize : Z) (fuel : nat) (c : Canvas) :
  valid src = true -> enough fuel src ->
  width src <= blockSize -> height src <= blockSize ->
  exists r p0 q,
    pixelate_on fuel src blockSize c = Returned r /\
    reads r = [0; 1; 2] /\
    getPixel src 0 0 = Some p0 /\
    alpha q = 255 /\
    (forall x y, 0 <= x < width src -> 0 <= y < height src ->
       getPixel (toDataURL (ctx r)) x y = Some q) /\
    (alpha p0 = 255 -> q = p0).
Proof.
  intros Hv Hfuel Hw Hh.
  destruct (valid_dims src Hv) as (Hw0 & Hh0 & _).
  assert (1 <= blockSize) as Hbs by lia.
  destruct (pixelate_on_run fuel src blockSize c Hv Hbs Hfuel)
    as (r & Hrun & Hout & _).
  destruct (pixelate_on_reads fuel src blockSize c Hv Hbs Hfuel)
    as (r' & Hrun' & Hreads).
  assert (r' = r) as -> by congruence.
  destruct (getPixel_valid src 0 0 Hv ltac:(lia) ltac:(lia)) as (p0 & Hp0 & _).
  exists r, p0, (opaque (canvas_read p0)). split; [exact Hrun|]. split.
  { rewrite Hreads.
    rewrite (passes_exit (width src) blockSize 1 Hbs) by lia.
    rewrite (passes_exit (height src) blockSize 1 Hbs) by lia.
    unfold all_reads, row_reads, block_reads, grid. simpl.
    rewrite !Z.mul_0_r. reflexivity. }
  split; [exact Hp0|]. split; [reflexivity|]. split.
  - intros x y Hx Hy. rewrite Hout.
    destruct (export_getPixel src blockSize x y Hv Hbs Hx Hy)
      as (q & Hq & Hpx).
    rewrite (corner_in_block blockSize 0 x),
            (corner_in_block blockSize 0 y) in Hq
      by (lia || apply Z.mod_0_l; lia).
    congruence.
  - apply opaque_canvas_read.
Qed.

Lemma block_size_reaching_dimensions_single_block_witness :
  exists r p0 q,
    pixelate_on 3 three_by_three 3 stale_canvas = Returned r /\
    reads r = [0; 1; 2] /\
    getPixel three_by_three 0 0 = Some p0 /\
    alpha q = 255 /\
    (forall x y, 0 <= x < 3 -> 0 <= y < 3 ->
       getPixel (toDataURL (ctx r)) x y = Some q) /\
    (alpha p0 = 255 -> q = p0).
Proof.
  apply (block_size_reaching_dimensions_single_block
           three_by_three 3 3 stale_canvas);
    [reflexivity | unfold enough; simpl; lia | simpl; lia | simpl; lia].
Defined.

(** ** The event handlers *)

Lemma strip_prefix_Some (p : string) :
  forall s rest, strip_prefix p s = Some rest <-> s = p +:+ rest.
Proof.
  induction p as [|a p IH]; intros s rest; simpl.
  - split; [intros [= ->]; reflexivity | intros ->; reflexivity].
  - destruct s as [|b s]; [split; discriminate|].
    destruct (Ascii.eqb a b) eqn:Hab.
    + apply Ascii.eqb_eq in Hab. subst b. rewrite IH.
      split; [intros ->; reflexivity | intros [= ->]; reflexivity].
    + apply Ascii.eqb_neq in Hab.
      split; [discriminate | intros [= -> _]; congruence].
Qed.

Lemma match_image_unfold (s : string) :
  match_image s =
  match strip_prefix "image" s with
  | Some rest => Some ("image" +:+ dot_star rest)
  | None =>
      match s with
      | EmptyString => None
      | String _ s' => match_image s'
      end
  end.
Proof. destruct s; reflexivity. Qed.

Lemma match_image_contains (t : string) :
  is_Some (match_image t) <->
  exists pre post, t = pre +:+ "image" +:+ post.
Proof.
  split.
  - induction t as [|a t IH]; intros Hm; rewrite match_image_unfold in Hm.
    + simpl in Hm. destruct Hm as (m & Hm). discriminate.
    + destruct (strip_prefix "image" (String a t)) as [rest|] eqn:Hs.
      * apply strip_prefix_Some in Hs. exists EmptyString, rest. exact Hs.
      * destruct (IH Hm) as (pre & post & ->).
        exists (String a pre), post. reflexivity.
  - intros (pre & post & ->).
    assert (strip_prefix "image" ("image" +:+ post) = Some post) as Hs
        by (apply strip_prefix_Some; reflexivity).
    induction pre as [|a pre IH].
    + change (EmptyString +:+ "image" +:+ post) with ("image" +:+ post).
      rewrite match_image_unfold, Hs. eauto.
    + change (String a pre +:+ "image" +:+ post)
        with (String a (pre +:+ "image" +:+ post)).
      rewrite match_image_unfold. clear Hs.
      destruct (strip_prefix "image" (String a _)); [eauto | exact IH].
Qed.

Lemma filter_fresh (node : nat) (l : list (nat * Link)) :
  Forall (fun n => (fst n < node)%nat) l ->
  List.filter (fun n => negb (Nat.eqb (fst n) node)) l = l.
Proof.
  induction 1 as [|n l Hn _ IH]; [reflexivity|]. simpl.
  destruct (Nat.eqb_spec (fst n) node); [lia|]. simpl. rewrite IH. reflexivity.
Qed.

(** X11. The type check of both loaders is an unanchored match: a file
    passes exactly when the text [image] occurs somewhere in its MIME type,
    not only when the type starts with [image/]. *)
Theorem type_check_is_substring_match (t : string) :
  is_Some (match_image t) <->
  exists pre post, t = pre +:+ "image" +:+ post.
Proof. apply match_image_contains. Qed.

(** X12. A selection or drop that is empty, or whose first file fails the
    type check or does not load as an image, changes nothing in the
    component: the picker leaves the page as it is and the drop only ends
    the drag state. *)
Theorem unusable_file_changes_nothing (files : list File) (pg : Page) :
  (forall f, head files = Some f ->
             match_image (type f) = None \/ decoded f = None) ->
  handleFileChange files pg = pg /\
  handleDrop files pg = handleDragLeave pg.
Proof.
  intros Hbad. unfold handleFileChange, handleDrop, handleDragLeave.
  destruct files as [|f rest]; [auto|].
  destruct (Hbad f eq_refl) as [Hm | Hd].
  - rewrite Hm. auto.
  - unfold processImage. rewrite Hd.
    destruct (match_image (type f)); auto.
Qed.

Lemma unusable_file_changes_nothing_witness :
  handleFileChange [mkFile "text/plain" (Some four_by_four)] start_page
  = start_page /\
  handleDrop [mkFile "text/plain" (Some four_by_four)] start_page
  = handleDragLeave start_page.
Proof.
  apply (unusable_file_changes_nothing
           [mkFile "text/plain" (Some four_by_four)] start_page).
  intros f [= <-]. left. reflexivity.
Defined.

(** X13. Only the first file of a selection or a drop counts, the drop and
    the picker put the component in the same state, and a drop always ends
    the drag state. *)
Theorem first_file_only_and_paths_agree
    (file : File) (others : list File) (pg : Page) :
  handleFileChange (file :: others) pg = handleFileChange [file] pg /\
  handleDrop (file :: others) pg = handleDrop [file] pg /\
  component (handleDrop (file :: others) pg) =
  component (handleFileChange (file :: others) pg) /\
  isDragging (handleDrop (file :: others) pg) = false.
Proof.
  unfold handleFileChange, handleDrop, processImage.
  destruct (match_image (type file)), (decoded file); simpl; auto.
Qed.

(** X14. Loading a new image discards the export of the old one: after a
    usable file is dropped the component holds the new image and no export,
    the slider value and the canvas are kept, and [downloadImage] then does
    nothing at all. *)
Theorem new_image_discards_export
    (file : File) (others : list File) (img : PixelBuffer) (pg : Page) :
  is_Some (match_image (type file)) -> decoded file = Some img ->
  let pg' := handleDrop (file :: others) pg in
  originalImage (component pg') = Some img /\
  pixelatedImage (component pg') = None /\
  pixelSize (component pg') = pixelSize (component pg) /\
  canvas (component pg') = canvas (component pg) /\
  downloadImage pg' = pg'.
Proof.
  intros (m & Hm) Hd pg'. subst pg'.
  unfold handleDrop, processImage. rewrite Hm, Hd.
  unfold downloadImage. simpl. auto.
Qed.

Lemma new_image_discards_export_witness :
  let pg' := handleDrop [png_file three_by_three] used_page in
  originalImage (component pg') = Some three_by_three /\
  pixelatedImage (component pg') = None /\
  pixelSize (component pg') = pixelSize (component used_page) /\
  canvas (component pg') = canvas (component used_page) /\
  downloadImage pg' = pg'.
Proof.
  apply (new_image_discards_export
           (png_file three_by_three) [] three_by_three used_page);
    [vm_compute; eauto | reflexivity].
Defined.

(** X15. From drop to download: after a usable file with a valid image is
    dropped on an idle page and the button is clicked, [downloadImage]
    clicks exactly one new link, named [pixelated-image.png], whose target
    is what the engine returns for that image and the slider's block size. *)
Theorem drop_pixelate_download
    (file : File) (others : list File) (img : PixelBuffer)
    (pg : Page) (fuel : nat) :
  is_Some (match_image (type file)) -> decoded file = Some img ->
  valid img = true -> 1 <= pixelSize (component pg) ->
  isProcessing (component pg) = false -> enough fuel img ->
  exists pg1 out,
    clickPixelate fuel (handleDrop (file :: others) pg) = Returned pg1 /\
    pixelate fuel img (pixelSize (component pg)) = Returned out /\
    clicked (downloadImage pg1) =
    clicked pg ++ [mkLink out "pixelated-image.png"].
Proof.
  intros (m & Hm) Hd Hv Hbs Hidle Hfuel.
  unfold handleDrop, processImage. rewrite Hm, Hd.
  unfold clickPixelate, pixelate_disabled. simpl. rewrite Hidle.
  destruct (pixelateImage_run fuel img
              {| originalImage := Some img; pixelatedImage := None;
                 pixelSize := pixelSize (component pg);
                 isProcessing := false;
                 canvas := canvas (component pg) |} eq_refl Hv Hbs Hfuel)
    as (c' & Hrun & _ & Hout & _).
  rewrite Hrun. simpl. eexists.
  exists (pixelated (stored img) (pixelSize (component pg))).
  split; [reflexivity|].
  split; [apply pixelate_run; assumption|].
  unfold downloadImage. simpl in Hout |- *. rewrite Hout. reflexivity.
Qed.

Lemma drop_pixelate_download_witness :
  exists pg1 out,
    clickPixelate 4 (handleDrop [png_file four_by_four] start_page)
    = Returned pg1 /\
    pixelate 4 four_by_four 10 = Returned out /\
    clicked (downloadImage pg1) = [mkLink out "pixelated-image.png"].
Proof.
  apply (drop_pixelate_download (png_file four_by_four) [] four_by_four
           start_page 4);
    [vm_compute; eauto | reflexivity | reflexivity | simpl; lia
    | reflexivity | unfold enough; simpl; lia].
Defined.

(** X16. [downloadImage] leaves no trace in the document: when every node
    of the body was created earlier, the body after the call is the body
    before it, the link being removed again; node identities stay fresh
    and at most one link is clicked. *)
Theorem download_leaves_body_unchanged (pg : Page) :
  body_ok pg ->
  body (downloadImage pg) = body pg /\
  body_ok (downloadImage pg) /\
  component (downloadImage pg) = component pg /\
  (length (clicked (downloadImage pg)) <= length (clicked pg) + 1)%nat.
Proof.
  intros Hok. unfold downloadImage, body_ok in *.
  destruct (pixelatedImage (component pg)) as [url|]; simpl.
  - rewrite List.filter_app, (filter_fresh _ _ Hok). simpl.
    rewrite Nat.eqb_refl. simpl. rewrite app_nil_r, length_app. simpl.
    repeat split; try lia.
    eapply Forall_impl; [exact Hok|]. simpl. intros n Hn. lia.
  - repeat split; try assumption. lia.
Qed.

Lemma download_leaves_body_unchanged_witness :
  body (downloadImage used_page) = body used_page /\
  body_ok (downloadImage used_page) /\
  component (downloadImage used_page) = component used_page /\
  (length (clicked (downloadImage used_page))
   <= length (clicked used_page) + 1)%nat.
Proof.
  apply (download_leaves_body_unchanged used_page).
  unfold body_ok. simpl. repeat constructor.
Defined.

(** On [used_page] the link is really made and clicked: the export is
    downloaded under its fixed name and the next node identity moves on. *)
Example used_page_download :
  clicked (downloadImage used_page) =
  [mkLink four_by_four "other.png"; mkLink one_pixel "pixelated-image.png"] /\
  nextNode (downloadImage used_page) = 6%nat /\
  pixelatedImage (component (handleDrop [png_file veiled] used_page)) = None.
Proof. repeat split. Qed.
